(** * protoavro: decoding of Avro JSON into protobuf messages

    A shallow embedding of [encoding/protoavro/decode.go] and the properties
    of its recursive decoder: [decodeMessage], [decodeField],
    [decodeFieldKind] and [findField]. *)

From Stdlib Require Import ZArith List String Ascii Bool Lia DecimalString.
Import ListNotations.
#[local] Set Warnings "-register-all".
Open Scope string_scope.
Open Scope Z_scope.

(** ** Go values of type [interface{}]

    The decoder receives the output of an Avro JSON reader: a tree of
    dynamically typed Go values.  A Go [map[string]interface{}] has unique
    keys and no iteration order of its own; it is kept here as the list of
    its entries in the order in which a [range] statement visits them, so a
    statement about every list is a statement about every visiting order. *)

Inductive any : Type :=
| GNil
| GBool (b : bool)
| GInt32 (i : Z)
| GInt64 (i : Z)
| GFloat32 (bits : Z)
| GFloat64 (bits : Z)
| GString (s : string)
| GBytes (bs : list Z)
| GSlice (l : list any)
| GMap (d : list (string * any)).

(** [%T] of a value, as [fmt] prints it. *)
Definition typeName (data : any) : string :=
  match data with
  | GNil => "<nil>"
  | GBool _ => "bool"
  | GInt32 _ => "int32"
  | GInt64 _ => "int64"
  | GFloat32 _ => "float32"
  | GFloat64 _ => "float64"
  | GString _ => "string"
  | GBytes _ => "[]uint8"
  | GSlice _ => "[]interface {}"
  | GMap _ => "map[string]interface {}"
  end.

(** [d[key]] on a Go map: the value and the [ok] flag. *)
Fixpoint mapIndex (d : list (string * any)) (key : string) : option any :=
  match d with
  | [] => None
  | (k, v) :: rest => if String.eqb k key then Some v else mapIndex rest key
  end.

(** ** Errors

    [fmt.Errorf] yields a plain error carrying the formatted text, or, when
    the format has a [%w] verb, an error that also wraps its cause.  A
    run-time panic is kept as a third form, [goPanic]: no function of this
    file inspects or wraps the error of a [decodeMessage], [decodeField] or
    message-kind [decodeFieldKind] call, so a panic unwinds through them the
    way a returned error does. *)

Inductive error : Type :=
| fmtError (s : string)
| wrapError (msg : string) (err : error)
| goPanic (s : string).

Definition Error (e : error) : string :=
  match e with
  | fmtError s => s
  | wrapError msg _ => msg
  | goPanic s => s
  end.

Definition Unwrap (e : error) : option error :=
  match e with
  | wrapError _ err => Some err
  | _ => None
  end.

(** A function of Go type [(T, error)]. *)
Inductive result (T : Type) : Type :=
| Ok (v : T)
| Err (err : error).
Arguments Ok {T} v.
Arguments Err {T} err.

(** ** Descriptors (package [protoreflect]) *)

Inductive Kind : Type :=
| BoolKind | EnumKind | Int32Kind | Sint32Kind | Uint32Kind
| Int64Kind | Sint64Kind | Uint64Kind | Sfixed32Kind | Fixed32Kind
| FloatKind | Sfixed64Kind | Fixed64Kind | DoubleKind | StringKind
| BytesKind | MessageKind | GroupKind
| InvalidKind (n : Z).

(** [Kind.String]. *)
Definition kindString (k : Kind) : string :=
  match k with
  | BoolKind => "bool" | EnumKind => "enum" | Int32Kind => "int32"
  | Sint32Kind => "sint32" | Uint32Kind => "uint32" | Int64Kind => "int64"
  | Sint64Kind => "sint64" | Uint64Kind => "uint64"
  | Sfixed32Kind => "sfixed32" | Fixed32Kind => "fixed32"
  | FloatKind => "float" | Sfixed64Kind => "sfixed64"
  | Fixed64Kind => "fixed64" | DoubleKind => "double"
  | StringKind => "string" | BytesKind => "bytes"
  | MessageKind => "message" | GroupKind => "group"
  | InvalidKind n => "<unknown:" ++ NilZero.string_of_int (Z.to_int n) ++ ">"
  end.

Record EnumValueDescriptor : Type := {
  ev_Name : string;
  ev_Number : Z
}.

Record EnumDescriptor : Type := {
  en_FullName : string;
  en_Values : list EnumValueDescriptor
}.

(** A field refers to its message type by name; the descriptor graph of a
    schema may be cyclic. *)
Record FieldDescriptor : Type := {
  fd_Name : string;
  fd_JSONName : string;
  fd_TextName : string;
  fd_Number : Z;
  fd_Kind : Kind;
  fd_IsList : bool;
  fd_IsMap : bool;
  fd_Enum : EnumDescriptor;
  fd_MessageName : string
}.

Record MessageDescriptor : Type := {
  md_FullName : string;
  md_Fields : list FieldDescriptor
}.

(** [EnumValueDescriptors.ByName]. *)
Fixpoint ByName (vs : list EnumValueDescriptor) (name : string)
  : option EnumValueDescriptor :=
  match vs with
  | [] => None
  | v :: rest => if String.eqb (ev_Name v) name then Some v else ByName rest name
  end.

(** [FieldDescriptors.ByJSONName] and [FieldDescriptors.ByTextName]. *)
Fixpoint ByJSONName (fs : list FieldDescriptor) (name : string)
  : option FieldDescriptor :=
  match fs with
  | [] => None
  | f :: rest =>
      if String.eqb (fd_JSONName f) name then Some f else ByJSONName rest name
  end.

Fixpoint ByTextName (fs : list FieldDescriptor) (name : string)
  : option FieldDescriptor :=
  match fs with
  | [] => None
  | f :: rest =>
      if String.eqb (fd_TextName f) name then Some f else ByTextName rest name
  end.

(** ** Messages and values (package [protoreflect]) *)

Inductive Value : Type :=
| ValueInvalid
| ValueOfBool (b : bool)
| ValueOfInt32 (i : Z)
| ValueOfInt64 (i : Z)
| ValueOfUint32 (i : Z)
| ValueOfUint64 (i : Z)
| ValueOfFloat32 (bits : Z)
| ValueOfFloat64 (bits : Z)
| ValueOfString (s : string)
| ValueOfBytes (bs : list Z)
| ValueOfEnum (n : Z)
| ValueOfMessage (m : Message)
| ValueOfList (l : list Value)
| ValueOfMap (mp : list (Value * Value))
with Message : Type :=
| Build_Message (desc : MessageDescriptor) (fields : list (Z * Value)).

Definition Descriptor (m : Message) : MessageDescriptor :=
  match m with Build_Message desc _ => desc end.

Definition msgFields (m : Message) : list (Z * Value) :=
  match m with Build_Message _ fields => fields end.

(** [Message.Set]: the field slot is keyed by the field number. *)
Definition MessageSet (m : Message) (f : FieldDescriptor) (v : Value) : Message :=
  Build_Message (Descriptor m)
    ((fd_Number f, v)
       :: filter (fun p => negb (Z.eqb (fst p) (fd_Number f))) (msgFields m)).

(** [Message.Get] on a populated slot, [None] on an unpopulated one. *)
Fixpoint lookupField (fields : list (Z * Value)) (n : Z) : option Value :=
  match fields with
  | [] => None
  | (k, v) :: rest => if Z.eqb k n then Some v else lookupField rest n
  end.

Definition MessageGet (m : Message) (f : FieldDescriptor) : option Value :=
  lookupField (msgFields m) (fd_Number f).

(** ** Options *)

Record ExtraField : Type := { FieldName : string }.
Record MarshalOptions : Type := { ExtraFields : list ExtraField }.
Record UnmarshalOptions : Type := { uo_MarshalOptions : MarshalOptions }.

(** ** What the decoder takes from outside this file

    The schema's message types by full name ([FieldDescriptor.Message]), and
    the functions of the package that [decode.go] calls and does not define.
    [decodeWKT] and [decodeMap] write into the message or map they are
    given; the new state is part of their result. *)

Record Env : Type := {
  MessageOf : string -> MessageDescriptor;
  isWKT : string -> bool;
  decodeWKT : list (string * any) -> Message -> Message * option error;
  decodeMap : any -> FieldDescriptor -> list (Value * Value)
              -> UnmarshalOptions -> list (Value * Value) * option error;
  decodeStringLike : any -> string -> result string;
  decodeBoolLike : any -> string -> result bool;
  decodeIntLike : any -> string -> result Z;
  decodeBytesLike : any -> string -> result (list Z)
}.

(** Go integer conversions of an [int64]. *)
Definition int32 (i : Z) : Z := (i + 2 ^ 31) mod 2 ^ 32 - 2 ^ 31.
Definition uint32 (i : Z) : Z := i mod 2 ^ 32.
Definition uint64 (i : Z) : Z := i mod 2 ^ 64.

(** Modelled from the spec: the error of [decodeListLike] on a value of
    another shape, a message that tells the expected role and the shape
    received. *)
Definition listLikeMismatch (data : any) (role : string) : error :=
  fmtError ("expected " ++ role ++ ", got " ++ typeName data).

(** Modelled from the spec: [decodeListLike], the shape check of list-like
    input, is not in [decode.go].  A value shaped as an ordered sequence is
    returned as its elements; any other value is a type mismatch labelled
    with the role. *)
Definition decodeListLike (data : any) (role : string) : result (list any) :=
  match data with
  | GSlice l => Ok l
  | _ => Err (listLikeMismatch data role)
  end.

(** [Message.NewField] and [List.NewElement] of package [protoreflect]: a
    new, empty, unattached message for a message kind; the first value of
    the enum; the zero value of any other scalar. *)
Definition newValue (E : Env) (f : FieldDescriptor) : Value :=
  match fd_Kind f with
  | BoolKind => ValueOfBool false
  | EnumKind =>
      match en_Values (fd_Enum f) with
      | v :: _ => ValueOfEnum (ev_Number v)
      | [] => ValueOfEnum 0
      end
  | Int32Kind | Sint32Kind | Sfixed32Kind => ValueOfInt32 0
  | Int64Kind | Sint64Kind | Sfixed64Kind => ValueOfInt64 0
  | Uint32Kind | Fixed32Kind => ValueOfUint32 0
  | Uint64Kind | Fixed64Kind => ValueOfUint64 0
  | FloatKind => ValueOfFloat32 0
  | DoubleKind => ValueOfFloat64 0
  | StringKind => ValueOfString ""
  | BytesKind => ValueOfBytes []
  | MessageKind | GroupKind =>
      ValueOfMessage (Build_Message (MessageOf E (fd_MessageName f)) [])
  | InvalidKind _ => ValueInvalid
  end.

Definition NewField (E : Env) (f : FieldDescriptor) : Value :=
  if fd_IsMap f then ValueOfMap []
  else if fd_IsList f then ValueOfList []
  else newValue E f.

Definition NewElement (E : Env) (f : FieldDescriptor) : Value := newValue E f.

(** ** The decoder *)

Fixpoint findExtraField (extraFields : list ExtraField) (name : string) : bool :=
  match extraFields with
  | [] => false
  | extraField :: rest =>
      if String.eqb (FieldName extraField) name then true
      else findExtraField rest name
  end.

(** [findField]: the descriptor ([None] is Go's [nil]) and the [ok] flag. *)
Definition findField (desc : MessageDescriptor) (name : string)
    (options : UnmarshalOptions) : option FieldDescriptor * bool :=
  match ByJSONName (md_Fields desc) name with
  | Some fd => (Some fd, true)
  | None =>
      match ByTextName (md_Fields desc) name with
      | Some fd => (Some fd, true)
      | None =>
          if findExtraField (ExtraFields (uo_MarshalOptions options)) name
          then (None, true)
          else (None, false)
      end
  end.

Section Decoder.
Variable E : Env.

(** [decodeFieldKind], [decodeField] and the loop of [decodeMessage] call
    [decodeMessage] back on a part of their input; each is first written
    over that recursive call, so that [decodeMessage] below is a structural
    recursion on [data]. *)
Section Bodies.
Variable decodeMessage : any -> Message -> UnmarshalOptions -> Message * option error.

Definition decodeFieldKind_body (data : any) (mutable : Value)
    (f : FieldDescriptor) (options : UnmarshalOptions) : result Value :=
  match fd_Kind f with
  | MessageKind | GroupKind =>
      match mutable with
      | ValueOfMessage m =>
          match decodeMessage data m options with
          | (_, Some err) => Err err
          | (m', None) => Ok (ValueOfMessage m')
          end
      | _ => Err (goPanic "Value.Message: value is not a message")
      end
  | StringKind =>
      match decodeStringLike E data "string" with
      | Err err =>
          Err (wrapError ("field " ++ fd_Name f ++ ": " ++ Error err) err)
      | Ok str => Ok (ValueOfString str)
      end
  | BoolKind =>
      match decodeBoolLike E data "boolean" with
      | Err err =>
          Err (wrapError ("field " ++ fd_Name f ++ ": " ++ Error err) err)
      | Ok bo => Ok (ValueOfBool bo)
      end
  | Int32Kind | Sfixed32Kind | Sint32Kind =>
      match decodeIntLike E data "int" with
      | Err err =>
          Err (wrapError ("field " ++ fd_Name f ++ ": " ++ Error err) err)
      | Ok i => Ok (ValueOfInt32 (int32 i))
      end
  | Int64Kind | Sfixed64Kind | Sint64Kind =>
      match decodeIntLike E data "long" with
      | Err err =>
          Err (wrapError ("field " ++ fd_Name f ++ ": " ++ Error err) err)
      | Ok i => Ok (ValueOfInt64 i)
      end
  | Uint32Kind | Fixed32Kind =>
      match decodeIntLike E data "int" with
      | Err err =>
          Err (wrapError ("field " ++ fd_Name f ++ ": " ++ Error err) err)
      | Ok i => Ok (ValueOfUint32 (uint32 i))
      end
  | Uint64Kind | Fixed64Kind =>
      match decodeIntLike E data "long" with
      | Err err =>
          Err (wrapError ("field " ++ fd_Name f ++ ": " ++ Error err) err)
      | Ok i => Ok (ValueOfUint64 (uint64 i))
      end
  | BytesKind =>
      match decodeBytesLike E data "bytes" with
      | Err err =>
          Err (wrapError ("field " ++ fd_Name f ++ ": " ++ Error err) err)
      | Ok bs => Ok (ValueOfBytes bs)
      end
  | EnumKind =>
      match decodeStringLike E data (en_FullName (fd_Enum f)) with
      | Err err =>
          Err (wrapError ("field " ++ fd_Name f ++ ": " ++ Error err) err)
      | Ok str =>
          match ByName (en_Values (fd_Enum f)) str with
          | Some v => Ok (ValueOfEnum (ev_Number v))
          | None => Ok (ValueOfEnum 0)
          end
      end
  | DoubleKind =>
      match data with
      | GFloat64 dbl => Ok (ValueOfFloat64 dbl)
      | _ =>
          Err (fmtError ("field " ++ fd_Name f ++ ": expected float64, got "
                         ++ typeName data))
      end
  | FloatKind =>
      match data with
      | GFloat32 flt => Ok (ValueOfFloat32 flt)
      | _ =>
          Err (fmtError ("field " ++ fd_Name f ++ ": expected float32, got "
                         ++ typeName data))
      end
  | InvalidKind _ =>
      Err (fmtError ("unexpected kind " ++ kindString (fd_Kind f)))
  end.

(** The loop of the list case: [lst] is the container [list] as built
    so far. *)
Fixpoint decodeElements (f : FieldDescriptor) (options : UnmarshalOptions)
    (listData : list any) (lst : list Value) : result (list Value) :=
  match listData with
  | [] => Ok lst
  | el :: rest =>
      match el with
      | GNil => decodeElements f options rest (lst ++ [NewElement E f])
      | _ =>
          match decodeFieldKind_body el (NewElement E f) f options with
          | Err err => Err err
          | Ok fieldValue => decodeElements f options rest (lst ++ [fieldValue])
          end
      end
  end.

(** The list case matches on [data] where the source calls
    [decodeListLike]; [decodeField_unfold] below restates it with the
    call. *)
Definition decodeField_body (data : any) (val : Message)
    (f : FieldDescriptor) (options : UnmarshalOptions)
  : Message * option error :=
  match data with
  | GNil => (val, None)
  | _ =>
      if fd_IsMap f then
        match NewField E f with
        | ValueOfMap mp0 =>
            match decodeMap E data f mp0 options with
            | (_, Some err) => (val, Some err)
            | (mp, None) => (MessageSet val f (ValueOfMap mp), None)
            end
        | _ => (val, Some (goPanic "Value.Map: value is not a map"))
        end
      else if fd_IsList f then
        match data with
        | GSlice listData =>
            match decodeElements f options listData [] with
            | Err err => (val, Some err)
            | Ok lst => (MessageSet val f (ValueOfList lst), None)
            end
        | _ => (val, Some (listLikeMismatch data "array"))
        end
      else
        match decodeFieldKind_body data (NewField E f) f options with
        | Err err => (val, Some err)
        | Ok fieldValue => (MessageSet val f fieldValue, None)
        end
  end.

(** The [range] loop of [decodeMessage] over the entries of the map. *)
Fixpoint decodeEntries (desc : MessageDescriptor) (options : UnmarshalOptions)
    (d : list (string * any)) (msg : Message) : Message * option error :=
  match d with
  | [] => (msg, None)
  | (fieldName, fieldValue) :: rest =>
      match findField desc fieldName options with
      | (_, false) => (msg, Some (fmtError ("unexpected field " ++ fieldName)))
      | (None, true) => decodeEntries desc options rest msg
      | (Some fd, true) =>
          match decodeField_body fieldValue msg fd options with
          | (msg', Some err) => (msg', Some err)
          | (msg', None) => decodeEntries desc options rest msg'
          end
      end
  end.
End Bodies.

(** The union test [len(d) == 1 && ok] is the match on a one-entry list
    whose key is the full name; [decodeMessage_unfold] below restates it
    with the map index and the length. *)
Fixpoint decodeMessage (data : any) (msg : Message) (options : UnmarshalOptions)
    {struct data} : Message * option error :=
  match data with
  | GNil => (msg, None)
  | GMap d =>
      if isWKT E (md_FullName (Descriptor msg)) then decodeWKT E d msg
      else
        let desc := Descriptor msg in
        match d with
        | [(key, msgData)] =>
            if String.eqb key (md_FullName desc)
            then decodeMessage msgData msg options
            else decodeEntries decodeMessage desc options d msg
        | _ => decodeEntries decodeMessage desc options d msg
        end
  | _ =>
      (msg, Some (fmtError ("expected message encoded as map[string]interface{}, got "
                            ++ typeName data)))
  end.

Definition decodeFieldKind : any -> Value -> FieldDescriptor -> UnmarshalOptions
                             -> result Value :=
  decodeFieldKind_body decodeMessage.

Definition decodeField : any -> Message -> FieldDescriptor -> UnmarshalOptions
                         -> Message * option error :=
  decodeField_body decodeMessage.

(** The field-by-field loop of [decodeMessage] on the message's own
    descriptor. *)
Definition rangeEntries (d : list (string * any)) (msg : Message)
    (options : UnmarshalOptions) : Message * option error :=
  decodeEntries decodeMessage (Descriptor msg) options d msg.

(** [decodeJSON], with [msg.ProtoReflect()] the message itself. *)
Definition decodeJSON (data : any) (msg : Message) (options : UnmarshalOptions)
  : Message * option error :=
  decodeMessage data msg options.
End Decoder.

(** What one element of a list field contributes to the container: a null
    element the value of [NewElement], any other element its decoded value. *)
Definition appended (E : Env) (f : FieldDescriptor) (options : UnmarshalOptions)
    (el : any) (v : Value) : Prop :=
  (el = GNil /\ v = NewElement E f)
  \/ (el <> GNil /\ decodeFieldKind E el (NewElement E f) f options = Ok v).

(** A union wrapper for a message type: the single-entry map keyed by the
    type's full name. *)
Definition isUnionOf (fullName : string) (d : list (string * any)) : Prop :=
  exists msgData, d = [(fullName, msgData)].

(** The kinds whose decoding is a coercion of one scalar. *)
Definition scalarKind (k : Kind) : bool :=
  match k with
  | MessageKind | GroupKind | InvalidKind _ => false
  | _ => true
  end.

(** The error [fmt.Errorf("field %s: %w", f.Name(), err)] of a failed
    coercion. *)
Definition fieldError (f : FieldDescriptor) (err : error) : error :=
  wrapError ("field " ++ fd_Name f ++ ": " ++ Error err) err.




(** ** A schema and collaborators to run the decoder on *)

Module Fixture.

Definition Color : EnumDescriptor :=
  {| en_FullName := "pkg.Color";
     en_Values := [ {| ev_Name := "RED"; ev_Number := 0 |};
                    {| ev_Name := "BLUE"; ev_Number := 1 |} ] |}.

Definition noEnum : EnumDescriptor := {| en_FullName := ""; en_Values := [] |}.

Definition field (name json : string) (number : Z) (kind : Kind)
    (isList isMap : bool) (enum : EnumDescriptor) (message : string)
  : FieldDescriptor :=
  {| fd_Name := name; fd_JSONName := json; fd_TextName := name;
     fd_Number := number; fd_Kind := kind; fd_IsList := isList;
     fd_IsMap := isMap; fd_Enum := enum; fd_MessageName := message |}.

Definition f_name := field "name" "name" 1 StringKind false false noEnum "".
Definition f_count := field "count" "count" 2 Int32Kind false false noEnum "".
Definition f_values := field "values" "values" 3 Int32Kind true false noEnum "".
Definition f_color := field "color" "color" 4 EnumKind false false Color "".
Definition f_child := field "child" "child" 5 MessageKind false false noEnum "pkg.Msg".
Definition f_tags :=
  field "tags" "tags" 6 MessageKind false true noEnum "pkg.Msg.TagsEntry".

(** [message Msg] of package [pkg]. *)
Definition Msg : MessageDescriptor :=
  {| md_FullName := "pkg.Msg";
     md_Fields := [f_name; f_count; f_values; f_color; f_child; f_tags] |}.

(** A message whose full name has no package part. *)
Definition Bare : MessageDescriptor :=
  {| md_FullName := "Msg"; md_Fields := [f_name] |}.

Definition f_seconds := field "seconds" "seconds" 1 Int64Kind false false noEnum "".
Definition f_nanos := field "nanos" "nanos" 2 Int32Kind false false noEnum "".

Definition Duration : MessageDescriptor :=
  {| md_FullName := "google.protobuf.Duration";
     md_Fields := [f_seconds; f_nanos] |}.

Definition messageOf (fullName : string) : MessageDescriptor :=
  if String.eqb fullName "pkg.Msg" then Msg
  else if String.eqb fullName "google.protobuf.Duration" then Duration
  else {| md_FullName := fullName; md_Fields := [] |}.

(** Modelled from the spec: [isWKT] is not in [decode.go]; it tells
    whether a full name is that of a well-known type (timestamp, duration,
    scalar wrappers). *)
Definition isWKT (fullName : string) : bool :=
  existsb (String.eqb fullName)
    [ "google.protobuf.Timestamp"; "google.protobuf.Duration";
      "google.protobuf.StringValue"; "google.protobuf.Int64Value";
      "google.protobuf.BoolValue" ].

(** Modelled from the spec: [decodeWKT] is not in [decode.go]; given a
    mapping and a message of a well-known type it populates the message
    or fails.  Here it knows the duration: it reads the fields [seconds]
    and [nanos] and fails on an entry that is neither. *)
Fixpoint decodeDuration (d : list (string * any)) (msg : Message)
  : Message * option error :=
  match d with
  | [] => (msg, None)
  | (key, GInt64 i) :: rest =>
      if String.eqb key "seconds"
      then decodeDuration rest (MessageSet msg f_seconds (ValueOfInt64 i))
      else if String.eqb key "nanos"
      then decodeDuration rest (MessageSet msg f_nanos (ValueOfInt32 (int32 i)))
      else (msg, Some (fmtError ("unexpected field " ++ key)))
  | (key, _) :: _ => (msg, Some (fmtError ("unexpected field " ++ key)))
  end.

Definition decodeWKT (d : list (string * any)) (msg : Message)
  : Message * option error :=
  if String.eqb (md_FullName (Descriptor msg)) "google.protobuf.Duration"
  then decodeDuration d msg
  else (msg, Some (fmtError ("unsupported well-known type "
                             ++ md_FullName (Descriptor msg)))).

Definition mismatch (role : string) (data : any) : error :=
  fmtError ("expected " ++ role ++ ", got " ++ typeName data).

(** Modelled from the spec: the scalar coercion helpers are not in
    [decode.go]; each returns the native scalar of a value of the expected
    shape and fails with a message naming the role and the shape
    received. *)
Definition decodeStringLike (data : any) (role : string) : result string :=
  match data with GString s => Ok s | _ => Err (mismatch role data) end.

Definition decodeBoolLike (data : any) (role : string) : result bool :=
  match data with GBool b => Ok b | _ => Err (mismatch role data) end.

Definition decodeIntLike (data : any) (role : string) : result Z :=
  match data with
  | GInt32 i | GInt64 i => Ok i
  | _ => Err (mismatch role data)
  end.

Definition decodeBytesLike (data : any) (role : string) : result (list Z) :=
  match data with GBytes bs => Ok bs | _ => Err (mismatch role data) end.

(** Modelled from the spec: [decodeMap] is not in [decode.go]; for every
    pair of the mapping it inserts a typed key and a typed value, the last
    write winning.  Here the keys are strings and the values 64-bit
    integers. *)
Fixpoint insertAll (d : list (string * any)) (mp : list (Value * Value))
  : list (Value * Value) * option error :=
  match d with
  | [] => (mp, None)
  | (key, GInt64 i) :: rest =>
      insertAll rest (mp ++ [(ValueOfString key, ValueOfInt64 i)])
  | (key, v) :: _ => (mp, Some (mismatch "long" v))
  end.

Definition decodeMap (data : any) (f : FieldDescriptor)
    (mp : list (Value * Value)) (options : UnmarshalOptions)
  : list (Value * Value) * option error :=
  match data with
  | GMap d => insertAll d mp
  | _ => (mp, Some (mismatch "map" data))
  end.

Definition env : Env :=
  Build_Env messageOf isWKT decodeWKT decodeMap
    decodeStringLike decodeBoolLike decodeIntLike decodeBytesLike.

Definition noOptions : UnmarshalOptions :=
  {| uo_MarshalOptions := {| ExtraFields := [] |} |}.

Definition withExtra (name : string) : UnmarshalOptions :=
  {| uo_MarshalOptions := {| ExtraFields := [ {| FieldName := name |} ] |} |}.

Definition empty (desc : MessageDescriptor) : Message := Build_Message desc [].

End Fixture.

(** Further fields and a message whose field has a JSON name of its own. *)
Module Samples.

Definition f_u32 := Fixture.field "u32" "u32" 7 Uint32Kind false false Fixture.noEnum "".
Definition f_u64 := Fixture.field "u64" "u64" 8 Uint64Kind false false Fixture.noEnum "".
Definition f_big := Fixture.field "big" "big" 9 Int64Kind false false Fixture.noEnum "".
Definition f_ratio := Fixture.field "ratio" "ratio" 10 DoubleKind false false Fixture.noEnum "".
Definition f_weight := Fixture.field "weight" "weight" 11 FloatKind false false Fixture.noEnum "".

Definition f_display :=
  Fixture.field "display_name" "displayName" 1 StringKind false false Fixture.noEnum "".
Definition f_age := Fixture.field "age" "age" 2 Int32Kind false false Fixture.noEnum "".

(** [message Person] of package [pkg]. *)
Definition Person : MessageDescriptor :=
  {| md_FullName := "pkg.Person"; md_Fields := [f_display; f_age] |}.

End Samples.

(** ** The definitions above, in the shape of the source

    [decodeMessage] and [decodeField] recurse on the structure of [data];
    the two lemmas below restate them with the map index, the length test
    and the call of [decodeListLike] that the source has. *)

Section Equations.
Variable E : Env.

Lemma decodeMessage_unfold data msg options :
  decodeMessage E data msg options =
  match data with
  | GNil => (msg, None)
  | GMap d =>
      if isWKT E (md_FullName (Descriptor msg)) then decodeWKT E d msg
      else
        match mapIndex d (md_FullName (Descriptor msg)) with
        | Some msgData =>
            if Nat.eqb (List.length d) 1
            then decodeMessage E msgData msg options
            else rangeEntries E d msg options
        | None => rangeEntries E d msg options
        end
  | _ =>
      (msg, Some (fmtError ("expected message encoded as map[string]interface{}, got "
                            ++ typeName data)))
  end.
Proof.
  destruct data as [| | | | | | | | |d]; try reflexivity.
  cbn [decodeMessage].
  destruct (isWKT E (md_FullName (Descriptor msg))); [reflexivity|].
  destruct d as [|[key msgData] [|entry rest]]; cbn [mapIndex List.length Nat.eqb].
  - reflexivity.
  - destruct (String.eqb key (md_FullName (Descriptor msg))); reflexivity.
  - destruct (String.eqb key (md_FullName (Descriptor msg))); [reflexivity|].
    destruct entry as [key' value'].
    destruct (String.eqb key' (md_FullName (Descriptor msg))); [reflexivity|].
    destruct (mapIndex rest (md_FullName (Descriptor msg))); reflexivity.
Qed.

Lemma decodeField_unfold data val f options :
  decodeField E data val f options =
  match data with
  | GNil => (val, None)
  | _ =>
      if fd_IsMap f then
        match NewField E f with
        | ValueOfMap mp0 =>
            match decodeMap E data f mp0 options with
            | (_, Some err) => (val, Some err)
            | (mp, None) => (MessageSet val f (ValueOfMap mp), None)
            end
        | _ => (val, Some (goPanic "Value.Map: value is not a map"))
        end
      else if fd_IsList f then
        match decodeListLike data "array" with
        | Err err => (val, Some err)
        | Ok listData =>
            match decodeElements E (decodeMessage E) f options listData [] with
            | Err err => (val, Some err)
            | Ok lst => (MessageSet val f (ValueOfList lst), None)
            end
        end
      else
        match decodeFieldKind E data (NewField E f) f options with
        | Err err => (val, Some err)
        | Ok fieldValue => (MessageSet val f fieldValue, None)
        end
  end.
Proof.
  unfold decodeField, decodeField_body, decodeFieldKind.
  destruct data; try reflexivity;
    destruct (fd_IsMap f); try reflexivity;
    destruct (fd_IsList f); reflexivity.
Qed.

(** A map field gets a map from [NewField], a message field a message. *)
Lemma NewField_map f : fd_IsMap f = true -> NewField E f = ValueOfMap [].
Proof. intros H. unfold NewField. rewrite H. reflexivity. Qed.

Lemma newValue_message f :
  fd_Kind f = MessageKind \/ fd_Kind f = GroupKind ->
  newValue E f = ValueOfMessage (Build_Message (MessageOf E (fd_MessageName f)) []).
Proof. intros [H|H]; unfold newValue; rewrite H; reflexivity. Qed.
End Equations.

(** ** Null input *)

(** C8: [decodeMessage] on a null value returns success and leaves the
    destination message as it was, whatever the target descriptor and the
    options. *)
Theorem decodeMessage_nil_noop :
  forall (E : Env) (msg : Message) (options : UnmarshalOptions),
    decodeMessage E GNil msg options = (msg, None).
Proof. reflexivity. Qed.

(** C10: [decodeField] on a null field value returns success at once and
    leaves the destination message unchanged, for a field of any kind, list
    and map fields included: the field stays unset, no empty container is
    stored. *)
Theorem decodeField_nil_noop :
  forall (E : Env) (val : Message) (f : FieldDescriptor)
         (options : UnmarshalOptions),
    decodeField E GNil val f options = (val, None)
    /\ MessageGet (fst (decodeField E GNil val f options)) f = MessageGet val f.
Proof. intros. split; reflexivity. Qed.

(** ** Scalars *)

Lemma ByName_Some vs name v :
  ByName vs name = Some v -> In v vs /\ ev_Name v = name.
Proof.
  induction vs as [|w vs IH]; cbn [ByName]; [discriminate|].
  destruct (String.eqb (ev_Name w) name) eqn:Hw.
  - intros [= <-]. apply String.eqb_eq in Hw. split; [now left | exact Hw].
  - intros H. destruct (IH H) as [Hin Hn]. split; [now right | exact Hn].
Qed.

Lemma ByName_None vs name :
  ByName vs name = None <-> ~ In name (map ev_Name vs).
Proof.
  induction vs as [|w vs IH]; cbn [ByName map In].
  - split; [intros _ [] | reflexivity].
  - destruct (String.eqb (ev_Name w) name) eqn:Hw.
    + apply String.eqb_eq in Hw. split; [discriminate | intros H; elim H; now left].
    + apply String.eqb_neq in Hw. rewrite IH. tauto.
Qed.

(** C5: an enum field given a string-shaped value decodes to the number of
    the table entry of that name, and to the number 0, with no error, when
    the table has no entry of that name. *)
Theorem decodeFieldKind_enum_by_name :
  forall (E : Env) (data : any) (mutable : Value) (f : FieldDescriptor)
         (options : UnmarshalOptions) (str : string),
    fd_Kind f = EnumKind ->
    decodeStringLike E data (en_FullName (fd_Enum f)) = Ok str ->
    (~ In str (map ev_Name (en_Values (fd_Enum f))) ->
     decodeFieldKind E data mutable f options = Ok (ValueOfEnum 0))
    /\ (In str (map ev_Name (en_Values (fd_Enum f))) ->
        exists v, In v (en_Values (fd_Enum f)) /\ ev_Name v = str
                  /\ decodeFieldKind E data mutable f options
                     = Ok (ValueOfEnum (ev_Number v))).
Proof.
  intros E data mutable f options str Hkind Hstr.
  unfold decodeFieldKind, decodeFieldKind_body. rewrite Hkind, Hstr.
  split.
  - intros Hout. apply ByName_None in Hout. rewrite Hout. reflexivity.
  - intros Hin.
    destruct (ByName (en_Values (fd_Enum f)) str) as [v|] eqn:Hv.
    + destruct (ByName_Some _ _ _ Hv) as [Hin' Hname]. now exists v.
    + apply ByName_None in Hv. contradiction.
Qed.

Lemma decodeFieldKind_enum_by_name_witness :
  decodeFieldKind Fixture.env (GString "GREEN") (ValueOfEnum 0) Fixture.f_color
    Fixture.noOptions = Ok (ValueOfEnum 0)
  /\ exists v, In v (en_Values Fixture.Color) /\ ev_Name v = "BLUE"
               /\ decodeFieldKind Fixture.env (GString "BLUE") (ValueOfEnum 0)
                    Fixture.f_color Fixture.noOptions
                  = Ok (ValueOfEnum (ev_Number v)).
Proof.
  split.
  - apply (decodeFieldKind_enum_by_name Fixture.env (GString "GREEN")
             (ValueOfEnum 0) Fixture.f_color Fixture.noOptions "GREEN"
             eq_refl eq_refl).
    cbn. intros [H|[H|[]]]; discriminate H.
  - apply (decodeFieldKind_enum_by_name Fixture.env (GString "BLUE")
             (ValueOfEnum 0) Fixture.f_color Fixture.noOptions "BLUE"
             eq_refl eq_refl).
    cbn. right. left. reflexivity.
Defined.

Lemma int32_range i : - 2 ^ 31 <= int32 i < 2 ^ 31.
Proof.
  unfold int32.
  pose proof (Z.mod_pos_bound (i + 2 ^ 31) (2 ^ 32) eq_refl) as H.
  change (2 ^ 32) with 4294967296 in *.
  change (2 ^ 31) with 2147483648 in *. lia.
Qed.

Lemma int32_congruent i : int32 i mod 2 ^ 32 = i mod 2 ^ 32.
Proof.
  unfold int32. rewrite Zminus_mod_idemp_l. f_equal. lia.
Qed.

Lemma int32_low_bits i n : 0 <= n < 32 -> Z.testbit (int32 i) n = Z.testbit i n.
Proof.
  intros Hn.
  rewrite <- (Z.mod_pow2_bits_low (int32 i) 32 n) by lia.
  rewrite int32_congruent. apply Z.mod_pow2_bits_low. lia.
Qed.

Lemma int32_fits i : - 2 ^ 31 <= i < 2 ^ 31 -> int32 i = i.
Proof.
  intros H. unfold int32.
  change (2 ^ 32) with 4294967296 in *.
  change (2 ^ 31) with 2147483648 in *.
  rewrite Z.mod_small; lia.
Qed.

(** C7: a 32-bit signed field given an int-shaped value decodes, with no
    range check and no error, to the low 32 bits of the coerced 64-bit
    integer read as a two's-complement [int32]; 4294967296 decodes to 0. *)
Theorem decodeFieldKind_int32_truncates :
  forall (E : Env) (data : any) (mutable : Value) (f : FieldDescriptor)
         (options : UnmarshalOptions) (i : Z),
    fd_Kind f = Int32Kind \/ fd_Kind f = Sfixed32Kind \/ fd_Kind f = Sint32Kind ->
    decodeIntLike E data "int" = Ok i ->
    decodeFieldKind E data mutable f options = Ok (ValueOfInt32 (int32 i))
    /\ - 2 ^ 31 <= int32 i < 2 ^ 31
    /\ int32 i mod 2 ^ 32 = i mod 2 ^ 32
    /\ (forall n, 0 <= n < 32 -> Z.testbit (int32 i) n = Z.testbit i n)
    /\ (i = 4294967296 -> int32 i = 0).
Proof.
  intros E data mutable f options i Hkind Hint.
  split; [|split; [apply int32_range|split; [apply int32_congruent|split]]].
  - unfold decodeFieldKind, decodeFieldKind_body.
    destruct Hkind as [H|[H|H]]; rewrite H, Hint; reflexivity.
  - intros n Hn. now apply int32_low_bits.
  - intros ->. reflexivity.
Qed.

Lemma decodeFieldKind_int32_truncates_witness :
  decodeFieldKind Fixture.env (GInt64 4294967296) (ValueOfInt32 0)
    Fixture.f_count Fixture.noOptions = Ok (ValueOfInt32 0).
Proof.
  destruct (decodeFieldKind_int32_truncates Fixture.env (GInt64 4294967296)
              (ValueOfInt32 0) Fixture.f_count Fixture.noOptions 4294967296
              (or_introl eq_refl) eq_refl) as [H _].
  exact H.
Defined.

(** ** List and map fields *)

Section Containers.
Variable E : Env.
Variable f : FieldDescriptor.
Variable options : UnmarshalOptions.

Local Abbreviation elements := (decodeElements E (decodeMessage E) f options).

Lemma decodeElements_nil rest lst :
  elements (GNil :: rest) lst = elements rest (lst ++ [NewElement E f])%list.
Proof. reflexivity. Qed.

Lemma decodeElements_cons el rest lst :
  el <> GNil ->
  elements (el :: rest) lst =
  match decodeFieldKind E el (NewElement E f) f options with
  | Err err => Err err
  | Ok fieldValue => elements rest (lst ++ [fieldValue])%list
  end.
Proof. intros Hel. destruct el; try reflexivity. congruence. Qed.

Lemma any_nil_dec (el : any) : {el = GNil} + {el <> GNil}.
Proof. destruct el; (now left) || (right; discriminate). Qed.

(** The loop succeeds exactly with the container extended, in order, by
    what each element contributes. *)
Lemma decodeElements_Ok listData : forall lst out,
  elements listData lst = Ok out <->
  exists vs, Forall2 (appended E f options) listData vs /\ out = (lst ++ vs)%list.
Proof.
  induction listData as [|el rest IH]; intros lst out.
  - cbn. split.
    + intros [= <-]. exists []. split; [constructor | now rewrite app_nil_r].
    + intros (vs & Hvs & ->). inversion Hvs. now rewrite app_nil_r.
  - destruct (any_nil_dec el) as [->|Hel].
    + rewrite decodeElements_nil, IH. split.
      * intros (vs & Hvs & ->). exists (NewElement E f :: vs). split.
        -- constructor; [now left | exact Hvs].
        -- now rewrite <- app_assoc.
      * intros (vs & Hvs & ->). inversion Hvs as [|? v ? vs' Hv Hrest]; subst.
        exists vs'. split; [exact Hrest|].
        destruct Hv as [[_ ->]|[Hne _]]; [|congruence].
        now rewrite <- app_assoc.
    + rewrite decodeElements_cons by exact Hel.
      destruct (decodeFieldKind E el (NewElement E f) f options) as [v|err] eqn:Hd.
      * rewrite IH. split.
        -- intros (vs & Hvs & ->). exists (v :: vs). split.
           ++ constructor; [right; now split | exact Hvs].
           ++ now rewrite <- app_assoc.
        -- intros (vs & Hvs & ->). inversion Hvs as [|? v' ? vs' Hv Hrest]; subst.
           exists vs'. split; [exact Hrest|].
           destruct Hv as [[-> _]|[_ Hv]]; [congruence|].
           rewrite Hd in Hv. injection Hv as ->. now rewrite <- app_assoc.
      * split; [discriminate|].
        intros (vs & Hvs & _). inversion Hvs as [|? v' ? vs' Hv Hrest]; subst.
        destruct Hv as [[-> _]|[_ Hv]]; congruence.
Qed.

(** The first element that fails ends the loop with its error. *)
Lemma decodeElements_first_failure pre : forall vs el post err lst,
  Forall2 (appended E f options) pre vs ->
  el <> GNil ->
  decodeFieldKind E el (NewElement E f) f options = Err err ->
  elements (pre ++ el :: post)%list lst = Err err.
Proof.
  induction pre as [|p pre IH]; intros vs el post err lst Hpre Hel Herr.
  - cbn [app]. rewrite decodeElements_cons by exact Hel. now rewrite Herr.
  - inversion Hpre as [|? v ? vs' Hv Hrest]; subst. cbn [app].
    destruct Hv as [[-> ->]|[Hne Hv]].
    + rewrite decodeElements_nil. now apply IH with (vs := vs').
    + rewrite decodeElements_cons by exact Hne. rewrite Hv.
      now apply IH with (vs := vs').
Qed.

(** Any element that fails makes the loop fail. *)
Lemma decodeElements_any_failure listData : forall el err lst,
  In el listData ->
  el <> GNil ->
  decodeFieldKind E el (NewElement E f) f options = Err err ->
  exists err', elements listData lst = Err err'.
Proof.
  induction listData as [|x rest IH]; intros el err lst Hin Hel Herr; [easy|].
  destruct (any_nil_dec x) as [->|Hx].
  - rewrite decodeElements_nil. destruct Hin as [<-|Hin]; [congruence|].
    now apply IH with (el := el) (err := err).
  - rewrite decodeElements_cons by exact Hx.
    destruct (decodeFieldKind E x (NewElement E f) f options) as [v|e] eqn:Hd.
    + destruct Hin as [<-|Hin]; [congruence|].
      now apply IH with (el := el) (err := err).
    + now exists e.
Qed.

Lemma decodeField_list (val : Message) listData :
  fd_IsMap f = false -> fd_IsList f = true ->
  decodeField E (GSlice listData) val f options =
  match elements listData [] with
  | Err err => (val, Some err)
  | Ok lst => (MessageSet val f (ValueOfList lst), None)
  end.
Proof.
  intros Hmap Hlist. rewrite decodeField_unfold, Hmap, Hlist. reflexivity.
Qed.

Lemma decodeField_map (val : Message) data :
  fd_IsMap f = true -> data <> GNil ->
  decodeField E data val f options =
  match decodeMap E data f [] options with
  | (_, Some err) => (val, Some err)
  | (mp, None) => (MessageSet val f (ValueOfMap mp), None)
  end.
Proof.
  intros Hmap Hdata. rewrite decodeField_unfold, Hmap, (NewField_map E f Hmap).
  destruct data; try reflexivity. congruence.
Qed.

(** Whatever the field, a failing [decodeField] has written nothing. *)
Lemma decodeField_error_unchanged data val val' err :
  decodeField E data val f options = (val', Some err) -> val' = val.
Proof.
  intros H. rewrite decodeField_unfold in H. unfold decodeListLike in H.
  repeat match type of H with
         | context [match ?x with _ => _ end] => destruct x
         end;
    congruence.
Qed.
End Containers.

Lemma MessageGet_MessageSet m f v : MessageGet (MessageSet m f v) f = Some v.
Proof. unfold MessageGet, MessageSet. cbn. now rewrite Z.eqb_refl. Qed.

Lemma Forall2_nth_error_l {A B} (R : A -> B -> Prop) l l' :
  Forall2 R l l' ->
  forall i a, nth_error l i = Some a ->
              exists b, nth_error l' i = Some b /\ R a b.
Proof.
  induction 1 as [|x y l l' Hxy _ IH]; intros [|i] a; cbn; try discriminate.
  - intros [= <-]. now exists y.
  - apply IH.
Qed.

(** C6: a list field given a sequence-shaped value gets one container entry
    per element, in input order: a null element contributes the zero value
    [NewElement] at its own position (0 in an [int32] list), any other
    element its decoded value. *)
Theorem decodeField_list_in_order :
  forall (E : Env) (listData : list any) (val : Message) (f : FieldDescriptor)
         (options : UnmarshalOptions),
    fd_IsMap f = false ->
    fd_IsList f = true ->
    (forall out,
        Forall2 (appended E f options) listData out ->
        decodeField E (GSlice listData) val f options
        = (MessageSet val f (ValueOfList out), None)
        /\ MessageGet (MessageSet val f (ValueOfList out)) f = Some (ValueOfList out)
        /\ List.length out = List.length listData
        /\ (forall i, nth_error listData i = Some GNil ->
                      nth_error out i = Some (NewElement E f)))
    /\ (forall val',
           decodeField E (GSlice listData) val f options = (val', None) ->
           exists out, Forall2 (appended E f options) listData out
                       /\ val' = MessageSet val f (ValueOfList out))
    /\ (fd_Kind f = Int32Kind -> NewElement E f = ValueOfInt32 0).
Proof.
  intros E listData val f options Hmap Hlist. split; [|split].
  - intros out Hout. split; [|split; [|split]].
    + rewrite decodeField_list by assumption.
      assert (decodeElements E (decodeMessage E) f options listData [] = Ok out)
        as -> by (apply decodeElements_Ok; now exists out).
      reflexivity.
    + apply MessageGet_MessageSet.
    + symmetry. exact (Forall2_length Hout).
    + intros i Hi.
      destruct (Forall2_nth_error_l _ _ _ Hout i GNil Hi) as (v & Hv & [[_ ->]|[Hne _]]);
        [exact Hv | congruence].
  - intros val'. rewrite decodeField_list by assumption.
    destruct (decodeElements E (decodeMessage E) f options listData []) as [lst|err] eqn:Hl;
      [|discriminate].
    intros [= <-]. apply decodeElements_Ok in Hl. destruct Hl as (vs & Hvs & ->).
    now exists vs.
  - intros Hkind. unfold NewElement, newValue. now rewrite Hkind.
Qed.

Lemma decodeField_list_in_order_witness :
  decodeField Fixture.env (GSlice [GInt32 1; GNil; GInt32 3])
    (Fixture.empty Fixture.Msg) Fixture.f_values Fixture.noOptions
  = (MessageSet (Fixture.empty Fixture.Msg) Fixture.f_values
       (ValueOfList [ValueOfInt32 1; ValueOfInt32 0; ValueOfInt32 3]), None).
Proof.
  apply (proj1 (decodeField_list_in_order Fixture.env
                  [GInt32 1; GNil; GInt32 3] (Fixture.empty Fixture.Msg)
                  Fixture.f_values Fixture.noOptions eq_refl eq_refl)).
  apply Forall2_cons; [right; split; [discriminate | reflexivity]|].
  apply Forall2_cons; [left; split; reflexivity|].
  apply Forall2_cons; [right; split; [discriminate | reflexivity]|].
  apply Forall2_nil.
Defined.

(** C3: on a list or map field the new container reaches the field slot
    only when every element has been decoded: a failing [decodeField] leaves
    the message as it was, a failing element or a failing [decodeMap] makes
    [decodeField] fail, and a successful [decodeField] on a non-null value
    stores the complete container. *)
Theorem decodeField_container_all_or_nothing :
  forall (E : Env) (data : any) (val : Message) (f : FieldDescriptor)
         (options : UnmarshalOptions),
    fd_IsMap f = true \/ fd_IsList f = true ->
    (forall val' err,
        decodeField E data val f options = (val', Some err) ->
        val' = val /\ MessageGet val' f = MessageGet val f)
    /\ (fd_IsMap f = false ->
        forall pre el post vs err,
          data = GSlice (pre ++ el :: post)%list ->
          Forall2 (appended E f options) pre vs ->
          el <> GNil ->
          decodeFieldKind E el (NewElement E f) f options = Err err ->
          decodeField E data val f options = (val, Some err))
    /\ (fd_IsMap f = false ->
        forall listData el err,
          data = GSlice listData ->
          In el listData ->
          el <> GNil ->
          decodeFieldKind E el (NewElement E f) f options = Err err ->
          exists err', decodeField E data val f options = (val, Some err'))
    /\ (fd_IsMap f = true ->
        forall mp err,
          data <> GNil ->
          decodeMap E data f [] options = (mp, Some err) ->
          decodeField E data val f options = (val, Some err))
    /\ (forall val',
           data <> GNil ->
           decodeField E data val f options = (val', None) ->
           (fd_IsMap f = true
            /\ exists mp, decodeMap E data f [] options = (mp, None)
                          /\ val' = MessageSet val f (ValueOfMap mp))
           \/ (fd_IsMap f = false
               /\ exists listData out,
                    data = GSlice listData
                    /\ Forall2 (appended E f options) listData out
                    /\ val' = MessageSet val f (ValueOfList out))).
Proof.
  intros E data val f options Hcontainer.
  split; [|split; [|split; [|split]]].
  - intros val' err H. apply decodeField_error_unchanged in H. now subst.
  - intros Hmap pre el post vs err -> Hpre Hel Herr.
    destruct Hcontainer as [Hc|Hlist]; [congruence|].
    rewrite decodeField_list by assumption.
    now rewrite (decodeElements_first_failure E f options pre vs el post err []).
  - intros Hmap listData el err -> Hin Hel Herr.
    destruct Hcontainer as [Hc|Hlist]; [congruence|].
    rewrite decodeField_list by assumption.
    destruct (decodeElements_any_failure E f options listData el err [] Hin Hel Herr)
      as [err' ->].
    now exists err'.
  - intros Hmap mp err Hdata Hmp.
    rewrite decodeField_map by assumption. now rewrite Hmp.
  - intros val' Hdata.
    destruct (fd_IsMap f) eqn:Hmap.
    + rewrite decodeField_map by assumption.
      destruct (decodeMap E data f [] options) as [mp [err|]] eqn:Hmp; [discriminate|].
      intros [= <-]. left. split; [reflexivity|]. now exists mp.
    + destruct Hcontainer as [Hc|Hlist]; [discriminate|].
      rewrite decodeField_unfold, Hmap, Hlist.
      destruct data; try congruence; cbn [decodeListLike]; try discriminate.
      destruct (decodeElements E (decodeMessage E) f options l []) as [lst|err] eqn:Hl;
        [|discriminate].
      intros [= <-]. right. split; [reflexivity|].
      apply decodeElements_Ok in Hl. destruct Hl as (vs & Hvs & ->).
      now exists l, vs.
Qed.

Lemma decodeField_container_all_or_nothing_witness :
  decodeField Fixture.env (GSlice [GInt32 1; GString "x"; GInt32 3])
    (MessageSet (Fixture.empty Fixture.Msg) Fixture.f_values
       (ValueOfList [ValueOfInt32 7]))
    Fixture.f_values Fixture.noOptions
  = (MessageSet (Fixture.empty Fixture.Msg) Fixture.f_values
       (ValueOfList [ValueOfInt32 7]),
     Some (wrapError "field values: expected int, got string"
             (fmtError "expected int, got string"))).
Proof.
  refine (proj1 (proj2 (decodeField_container_all_or_nothing Fixture.env
            (GSlice [GInt32 1; GString "x"; GInt32 3])
            (MessageSet (Fixture.empty Fixture.Msg) Fixture.f_values
               (ValueOfList [ValueOfInt32 7]))
            Fixture.f_values Fixture.noOptions (or_intror eq_refl)))
          eq_refl [GInt32 1] (GString "x") [GInt32 3] [ValueOfInt32 1] _
          eq_refl _ _ eq_refl).
  - apply Forall2_cons; [right; split; [discriminate | reflexivity]|].
    apply Forall2_nil.
  - discriminate.
Defined.

(** ** Field resolution and the loop over the entries *)

Lemma findExtraField_In extraFields name :
  findExtraField extraFields name = true <-> In name (map FieldName extraFields).
Proof.
  induction extraFields as [|x rest IH]; cbn [findExtraField map In].
  - split; [discriminate | intros []].
  - destruct (String.eqb (FieldName x) name) eqn:Hx.
    + apply String.eqb_eq in Hx. split; [now left | reflexivity].
    + apply String.eqb_neq in Hx. rewrite IH. tauto.
Qed.

Lemma findField_unknown desc name options :
  ByJSONName (md_Fields desc) name = None ->
  ByTextName (md_Fields desc) name = None ->
  ~ In name (map FieldName (ExtraFields (uo_MarshalOptions options))) ->
  findField desc name options = (None, false).
Proof.
  intros Hj Ht Hx. unfold findField. rewrite Hj, Ht.
  destruct (findExtraField _ name) eqn:Hf; [|reflexivity].
  apply findExtraField_In in Hf. contradiction.
Qed.

Lemma findField_extra desc name options :
  ByJSONName (md_Fields desc) name = None ->
  ByTextName (md_Fields desc) name = None ->
  In name (map FieldName (ExtraFields (uo_MarshalOptions options))) ->
  findField desc name options = (None, true).
Proof.
  intros Hj Ht Hx. unfold findField. rewrite Hj, Ht.
  apply findExtraField_In in Hx. now rewrite Hx.
Qed.

Section Entries.
Variable E : Env.
Variable options : UnmarshalOptions.

(** Entries visited after a prefix are decoded from the state the prefix
    leaves; a failure inside the prefix ends the loop. *)
Lemma rangeEntries_app pre : forall post msg desc,
  decodeEntries E (decodeMessage E) desc options (pre ++ post)%list msg =
  match decodeEntries E (decodeMessage E) desc options pre msg with
  | (msg', None) => decodeEntries E (decodeMessage E) desc options post msg'
  | failed => failed
  end.
Proof.
  induction pre as [|[fieldName fieldValue] pre IH]; intros post msg desc.
  - reflexivity.
  - cbn [app decodeEntries].
    destruct (findField desc fieldName options) as [[fd|] [|]];
      try reflexivity.
    + destruct (decodeField_body E (decodeMessage E) fieldValue msg fd options)
        as [msg' [err|]]; [reflexivity | apply IH].
    + apply IH.
Qed.

(** Outside the well-known types and the union wrappers, [decodeMessage]
    on a map is the loop over its entries. *)
Lemma decodeMessage_range d msg :
  isWKT E (md_FullName (Descriptor msg)) = false ->
  ~ isUnionOf (md_FullName (Descriptor msg)) d ->
  decodeMessage E (GMap d) msg options = rangeEntries E d msg options.
Proof.
  intros Hwkt Hunion. cbn [decodeMessage]. rewrite Hwkt.
  destruct d as [|[key msgData] [|entry rest]]; try reflexivity.
  destruct (String.eqb key (md_FullName (Descriptor msg))) eqn:Hkey;
    [|reflexivity].
  apply String.eqb_eq in Hkey. subst key. elim Hunion. now exists msgData.
Qed.

(** A well-known type takes the whole map as it came. *)
Lemma decodeMessage_wkt d msg :
  isWKT E (md_FullName (Descriptor msg)) = true ->
  decodeMessage E (GMap d) msg options = decodeWKT E d msg.
Proof. intros Hwkt. cbn [decodeMessage]. now rewrite Hwkt. Qed.

(** An entry that resolves to nothing makes the loop fail, wherever it
    stands. *)
Lemma rangeEntries_unknown_fails desc key value d : forall msg,
  In (key, value) d ->
  findField desc key options = (None, false) ->
  exists msg' err,
    decodeEntries E (decodeMessage E) desc options d msg = (msg', Some err).
Proof.
  induction d as [|[fieldName fieldValue] rest IH]; intros msg Hin Hfind; [easy|].
  cbn [decodeEntries].
  destruct (findField desc fieldName options) as [[fd|] [|]] eqn:Hf;
    try (now eexists _, _).
  - destruct (decodeField_body E (decodeMessage E) fieldValue msg fd options)
      as [msg' [err|]]; [now eexists _, _|].
    destruct Hin as [[= -> ->]|Hin]; [congruence | now apply IH].
  - destruct Hin as [[= -> ->]|Hin]; [congruence | now apply IH].
Qed.
End Entries.

(** Every scalar kind names the field in the error of a failed coercion. *)
Lemma decodeFieldKind_scalar_error E data mutable f options err :
  scalarKind (fd_Kind f) = true ->
  decodeFieldKind E data mutable f options = Err err ->
  exists cause, Error err = "field " ++ fd_Name f ++ ": " ++ cause.
Proof.
  unfold decodeFieldKind, decodeFieldKind_body. intros Hk.
  destruct (fd_Kind f); try discriminate Hk;
    repeat match goal with
      | |- context [match ?x with _ => _ end] => destruct x eqn:?
      end;
    intros [= <-]; cbn [Error]; eexists; reflexivity.
Qed.

(** A failing loop over the elements fails with the error of an element. *)
Lemma decodeElements_Err E f options listData : forall lst err,
  decodeElements E (decodeMessage E) f options listData lst = Err err ->
  exists el, In el listData /\ el <> GNil
             /\ decodeFieldKind E el (NewElement E f) f options = Err err.
Proof.
  induction listData as [|x rest IH]; intros lst err; [discriminate|].
  destruct (any_nil_dec x) as [->|Hx].
  - rewrite decodeElements_nil. intros H. destruct (IH _ _ H) as (el & Hin & Hel).
    exists el. split; [now right | exact Hel].
  - rewrite decodeElements_cons by exact Hx.
    destruct (decodeFieldKind E x (NewElement E f) f options) as [v|e] eqn:Hd.
    + intros H. destruct (IH _ _ H) as (el & Hin & Hel).
      exists el. split; [now right | exact Hel].
    + intros [= <-]. exists x. split; [now left | now split].
Qed.

(** ** Union wrappers *)



(** ** Unknown and ignored entries *)

(** C4, amended: when the target is not a well-known type and the map is not
    a union wrapper of it, a key that resolves to no field by JSON name or
    text name and to no extra field makes [decodeMessage] fail; the error is
    the unknown-field error of that key when the entries visited before it
    decode without error. *)
Theorem decodeMessage_unknown_field :
  forall (E : Env) (d : list (string * any)) (key : string) (value : any)
         (msg : Message) (options : UnmarshalOptions),
    isWKT E (md_FullName (Descriptor msg)) = false ->
    ~ isUnionOf (md_FullName (Descriptor msg)) d ->
    In (key, value) d ->
    ByJSONName (md_Fields (Descriptor msg)) key = None ->
    ByTextName (md_Fields (Descriptor msg)) key = None ->
    ~ In key (map FieldName (ExtraFields (uo_MarshalOptions options))) ->
    (exists msg' err, decodeMessage E (GMap d) msg options = (msg', Some err))
    /\ (forall pre post msg',
           d = (pre ++ (key, value) :: post)%list ->
           rangeEntries E pre msg options = (msg', None) ->
           decodeMessage E (GMap d) msg options
           = (msg', Some (fmtError ("unexpected field " ++ key)))).
Proof.
  intros E d key value msg options Hwkt Hunion Hin Hj Ht Hx.
  pose proof (findField_unknown _ _ _ Hj Ht Hx) as Hfind.
  rewrite decodeMessage_range by assumption. unfold rangeEntries. split.
  - now apply rangeEntries_unknown_fails with (key := key) (value := value).
  - intros pre post msg' -> Hpre. unfold rangeEntries in Hpre.
    rewrite rangeEntries_app, Hpre. cbn [decodeEntries]. now rewrite Hfind.
Qed.

Lemma decodeMessage_unknown_field_witness :
  decodeMessage Fixture.env (GMap [("name", GString "a"); ("bogus", GInt64 1)])
    (Fixture.empty Fixture.Msg) Fixture.noOptions
  = (MessageSet (Fixture.empty Fixture.Msg) Fixture.f_name (ValueOfString "a"),
     Some (fmtError "unexpected field bogus")).
Proof.
  refine (proj2 (decodeMessage_unknown_field Fixture.env
                   [("name", GString "a"); ("bogus", GInt64 1)] "bogus" (GInt64 1)
                   (Fixture.empty Fixture.Msg) Fixture.noOptions
                   eq_refl _ _ eq_refl eq_refl _)
            [("name", GString "a")] [] _ eq_refl eq_refl).
  - intros [msgData H]. discriminate H.
  - right. left. reflexivity.
  - intros [].
Defined.

(** C4 as stated fails on a union wrapper, whose only key names no field
    and is unwrapped, and on a map where another entry fails first. *)
Lemma decodeMessage_unknown_field_counterexample :
  (findField Fixture.Msg "pkg.Msg" Fixture.noOptions = (None, false)
   /\ decodeMessage Fixture.env (GMap [("pkg.Msg", GNil)])
        (Fixture.empty Fixture.Msg) Fixture.noOptions
      = (Fixture.empty Fixture.Msg, None))
  /\ (findField Fixture.Msg "bogus" Fixture.noOptions = (None, false)
      /\ decodeMessage Fixture.env
           (GMap [("name", GInt64 5); ("bogus", GInt64 1)])
           (Fixture.empty Fixture.Msg) Fixture.noOptions
         = (Fixture.empty Fixture.Msg,
            Some (wrapError "field name: expected string, got int64"
                    (fmtError "expected string, got int64")))).
Proof. repeat split. Qed.

(** C9, amended: when the target is not a well-known type and the map is not
    a union wrapper of it, an entry whose key matches no field by JSON name
    or text name and is the name of an extra field resolves without error
    and is skipped: [decodeMessage] ends as the loop over the other entries
    does, so nothing is written and nothing fails on its account. *)
Theorem decodeMessage_skips_extra_field :
  forall (E : Env) (pre post : list (string * any)) (key : string) (value : any)
         (msg : Message) (options : UnmarshalOptions),
    isWKT E (md_FullName (Descriptor msg)) = false ->
    ~ isUnionOf (md_FullName (Descriptor msg)) (pre ++ (key, value) :: post)%list ->
    ByJSONName (md_Fields (Descriptor msg)) key = None ->
    ByTextName (md_Fields (Descriptor msg)) key = None ->
    In key (map FieldName (ExtraFields (uo_MarshalOptions options))) ->
    findField (Descriptor msg) key options = (None, true)
    /\ rangeEntries E [(key, value)] msg options = (msg, None)
    /\ decodeMessage E (GMap (pre ++ (key, value) :: post)%list) msg options
       = rangeEntries E (pre ++ post)%list msg options.
Proof.
  intros E pre post key value msg options Hwkt Hunion Hj Ht Hx.
  pose proof (findField_extra _ _ _ Hj Ht Hx) as Hfind.
  split; [exact Hfind|split].
  - unfold rangeEntries. cbn [decodeEntries]. now rewrite Hfind.
  - rewrite decodeMessage_range by assumption. unfold rangeEntries.
    rewrite !rangeEntries_app.
    destruct (decodeEntries E (decodeMessage E) (Descriptor msg) options pre msg)
      as [msg' [err|]]; [reflexivity|].
    cbn [decodeEntries]. now rewrite Hfind.
Qed.

Lemma decodeMessage_skips_extra_field_witness :
  decodeMessage Fixture.env
    (GMap [("name", GString "a"); ("legacy", GInt64 1); ("count", GInt32 2)])
    (Fixture.empty Fixture.Msg) (Fixture.withExtra "legacy")
  = rangeEntries Fixture.env [("name", GString "a"); ("count", GInt32 2)]
      (Fixture.empty Fixture.Msg) (Fixture.withExtra "legacy").
Proof.
  refine (proj2 (proj2 (decodeMessage_skips_extra_field Fixture.env
                          [("name", GString "a")] [("count", GInt32 2)]
                          "legacy" (GInt64 1) (Fixture.empty Fixture.Msg)
                          (Fixture.withExtra "legacy")
                          eq_refl _ eq_refl eq_refl _))).
  - intros [msgData H]. discriminate H.
  - left. reflexivity.
Defined.

(** C9 as stated fails when the extra field has the full name of the target
    and is the only key: the entry is unwrapped and its value decoded into
    the message. *)
Lemma decodeMessage_skips_extra_field_counterexample :
  findField Fixture.Bare "Msg" (Fixture.withExtra "Msg") = (None, true)
  /\ decodeMessage Fixture.env (GMap [("Msg", GMap [("name", GString "a")])])
       (Fixture.empty Fixture.Bare) (Fixture.withExtra "Msg")
     = (MessageSet (Fixture.empty Fixture.Bare) Fixture.f_name (ValueOfString "a"),
        None)
  /\ MessageGet (Fixture.empty Fixture.Bare) Fixture.f_name = None
  /\ MessageGet
       (fst (decodeMessage Fixture.env
               (GMap [("Msg", GMap [("name", GString "a")])])
               (Fixture.empty Fixture.Bare) (Fixture.withExtra "Msg")))
       Fixture.f_name
     = Some (ValueOfString "a").
Proof. repeat split. Qed.

(** ** Errors of a field *)

(** The first entry whose [decodeField] fails ends [decodeMessage] with that
    error, as it is. *)
Lemma decodeMessage_first_failure E options pre fieldName fieldValue post
    fd msg msg' msg'' err :
  isWKT E (md_FullName (Descriptor msg)) = false ->
  ~ isUnionOf (md_FullName (Descriptor msg))
      (pre ++ (fieldName, fieldValue) :: post)%list ->
  rangeEntries E pre msg options = (msg', None) ->
  findField (Descriptor msg) fieldName options = (Some fd, true) ->
  decodeField E fieldValue msg' fd options = (msg'', Some err) ->
  decodeMessage E (GMap (pre ++ (fieldName, fieldValue) :: post)%list) msg options
  = (msg', Some err).
Proof.
  intros Hwkt Hunion Hpre Hfind Hfield.
  rewrite decodeMessage_range by assumption. unfold rangeEntries in *.
  rewrite rangeEntries_app, Hpre. cbn [decodeEntries]. rewrite Hfind.
  pose proof (decodeField_error_unchanged _ _ _ _ _ _ _ Hfield) as ->.
  unfold decodeField in Hfield. now rewrite Hfield.
Qed.

(** A field that is no list and no map fails with the error of
    [decodeFieldKind]. *)
Lemma decodeField_single_Err E data val f options val' err :
  fd_IsMap f = false -> fd_IsList f = false ->
  decodeField E data val f options = (val', Some err) ->
  decodeFieldKind E data (NewField E f) f options = Err err.
Proof.
  intros Hmap Hlist. rewrite decodeField_unfold, Hmap, Hlist.
  destruct (decodeFieldKind E data (NewField E f) f options) as [v|e];
    destruct data; congruence.
Qed.

(** C2, amended: the first entry whose decode fails ends the top-level
    [decodeMessage] with that error as it is.  When the field is of a scalar
    or enum kind, and is single or a list given a sequence-shaped value, the
    error reads "field <name>: <cause>" with the name of the field.  When
    the field is a single message or group, the error is the one of the
    nested [decodeMessage], with no field name added. *)
Theorem decodeMessage_field_error :
  forall (E : Env) (pre post : list (string * any)) (fieldName : string)
         (fieldValue : any) (fd : FieldDescriptor) (msg msg' msg'' : Message)
         (options : UnmarshalOptions) (err : error),
    isWKT E (md_FullName (Descriptor msg)) = false ->
    ~ isUnionOf (md_FullName (Descriptor msg))
        (pre ++ (fieldName, fieldValue) :: post)%list ->
    rangeEntries E pre msg options = (msg', None) ->
    findField (Descriptor msg) fieldName options = (Some fd, true) ->
    decodeField E fieldValue msg' fd options = (msg'', Some err) ->
    decodeMessage E (GMap (pre ++ (fieldName, fieldValue) :: post)%list) msg options
    = (msg', Some err)
    /\ (scalarKind (fd_Kind fd) = true ->
        fd_IsMap fd = false ->
        (fd_IsList fd = true -> exists listData, fieldValue = GSlice listData) ->
        exists cause, Error err = "field " ++ fd_Name fd ++ ": " ++ cause)
    /\ (fd_Kind fd = MessageKind \/ fd_Kind fd = GroupKind ->
        fd_IsMap fd = false ->
        fd_IsList fd = false ->
        exists nested,
          decodeMessage E fieldValue
            (Build_Message (MessageOf E (fd_MessageName fd)) []) options
          = (nested, Some err)).
Proof.
  intros E pre post fieldName fieldValue fd msg msg' msg'' options err
         Hwkt Hunion Hpre Hfind Hfield.
  split; [now apply decodeMessage_first_failure with (fd := fd) (msg'' := msg'')|].
  split.
  - intros Hkind Hmap Hshape.
    destruct (fd_IsList fd) eqn:Hlist.
    + destruct (Hshape eq_refl) as [listData ->].
      rewrite decodeField_list in Hfield by assumption.
      destruct (decodeElements E (decodeMessage E) fd options listData [])
        as [lst|e] eqn:Hl; [discriminate|].
      injection Hfield as _ <-.
      destruct (decodeElements_Err _ _ _ _ _ _ Hl) as (el & _ & _ & Hel).
      now apply decodeFieldKind_scalar_error in Hel.
    + apply decodeField_single_Err in Hfield; [|assumption..].
      now apply decodeFieldKind_scalar_error in Hfield.
  - intros Hkind Hmap Hlist.
    apply decodeField_single_Err in Hfield; [|assumption..].
    unfold NewField in Hfield. rewrite Hmap, Hlist in Hfield.
    rewrite (newValue_message E fd Hkind) in Hfield.
    unfold decodeFieldKind, decodeFieldKind_body in Hfield.
    destruct (decodeMessage E fieldValue
                (Build_Message (MessageOf E (fd_MessageName fd)) []) options)
      as [nested [e|]] eqn:Hnested.
    + exists nested. destruct Hkind as [Hk|Hk]; rewrite Hk in Hfield; congruence.
    + destruct Hkind as [Hk|Hk]; rewrite Hk in Hfield; discriminate.
Qed.

Lemma decodeMessage_field_error_witness :
  decodeMessage Fixture.env (GMap [("name", GString "a"); ("count", GString "x")])
    (Fixture.empty Fixture.Msg) Fixture.noOptions
  = (MessageSet (Fixture.empty Fixture.Msg) Fixture.f_name (ValueOfString "a"),
     Some (wrapError "field count: expected int, got string"
             (fmtError "expected int, got string"))).
Proof.
  refine (proj1 (decodeMessage_field_error Fixture.env
                   [("name", GString "a")] [] "count" (GString "x")
                   Fixture.f_count (Fixture.empty Fixture.Msg)
                   (MessageSet (Fixture.empty Fixture.Msg) Fixture.f_name
                      (ValueOfString "a"))
                   (MessageSet (Fixture.empty Fixture.Msg) Fixture.f_name
                      (ValueOfString "a"))
                   Fixture.noOptions
                   (wrapError "field count: expected int, got string"
                      (fmtError "expected int, got string"))
                   eq_refl _ eq_refl eq_refl eq_refl)).
  intros [msgData H]. discriminate H.
Defined.

(** C2 as stated fails on a message field: given a string, the field
    [child] fails with the error of the nested [decodeMessage], which names
    no field. *)
Lemma decodeMessage_field_error_counterexample :
  findField Fixture.Msg "child" Fixture.noOptions = (Some Fixture.f_child, true)
  /\ decodeField Fixture.env (GString "oops") (Fixture.empty Fixture.Msg)
       Fixture.f_child Fixture.noOptions
     = (Fixture.empty Fixture.Msg,
        Some (fmtError "expected message encoded as map[string]interface{}, got string"))
  /\ decodeMessage Fixture.env (GMap [("child", GString "oops")])
       (Fixture.empty Fixture.Msg) Fixture.noOptions
     = (Fixture.empty Fixture.Msg,
        Some (fmtError "expected message encoded as map[string]interface{}, got string"))
  /\ String.prefix ("field " ++ fd_Name Fixture.f_child ++ ": ")
       (Error (fmtError "expected message encoded as map[string]interface{}, got string"))
     = false
  /\ (forall cause,
         Error (fmtError "expected message encoded as map[string]interface{}, got string")
         <> "field " ++ fd_Name Fixture.f_child ++ ": " ++ cause).
Proof.
  repeat split. intros cause H. discriminate H.
Qed.

(** * Further properties of the decoder *)

(** ** Field resolution *)

Lemma ByJSONName_Some fs name fd :
  ByJSONName fs name = Some fd -> In fd fs /\ fd_JSONName fd = name.
Proof.
  induction fs as [|g fs IH]; cbn [ByJSONName]; [discriminate|].
  destruct (String.eqb (fd_JSONName g) name) eqn:Hg.
  - intros [= <-]. apply String.eqb_eq in Hg. split; [now left | exact Hg].
  - intros H. destruct (IH H) as [Hin Hn]. split; [now right | exact Hn].
Qed.

Lemma ByJSONName_None fs name :
  ByJSONName fs name = None <-> ~ In name (map fd_JSONName fs).
Proof.
  induction fs as [|g fs IH]; cbn [ByJSONName map In].
  - split; [intros _ [] | reflexivity].
  - destruct (String.eqb (fd_JSONName g) name) eqn:Hg.
    + apply String.eqb_eq in Hg. split; [discriminate | intros H; elim H; now left].
    + apply String.eqb_neq in Hg. rewrite IH. tauto.
Qed.

Lemma ByTextName_Some fs name fd :
  ByTextName fs name = Some fd -> In fd fs /\ fd_TextName fd = name.
Proof.
  induction fs as [|g fs IH]; cbn [ByTextName]; [discriminate|].
  destruct (String.eqb (fd_TextName g) name) eqn:Hg.
  - intros [= <-]. apply String.eqb_eq in Hg. split; [now left | exact Hg].
  - intros H. destruct (IH H) as [Hin Hn]. split; [now right | exact Hn].
Qed.

Lemma ByTextName_None fs name :
  ByTextName fs name = None <-> ~ In name (map fd_TextName fs).
Proof.
  induction fs as [|g fs IH]; cbn [ByTextName map In].
  - split; [intros _ [] | reflexivity].
  - destruct (String.eqb (fd_TextName g) name) eqn:Hg.
    + apply String.eqb_eq in Hg. split; [discriminate | intros H; elim H; now left].
    + apply String.eqb_neq in Hg. rewrite IH. tauto.
Qed.

(** X1: a descriptor returned by [findField] comes with the flag set, is a
    field of the message, and matches the name by its JSON name, or by its
    text name when no field of the message has that JSON name. *)
Theorem findField_sound :
  forall (desc : MessageDescriptor) (name : string) (options : UnmarshalOptions)
         (fd : FieldDescriptor) (ok : bool),
    findField desc name options = (Some fd, ok) ->
    ok = true
    /\ In fd (md_Fields desc)
    /\ (fd_JSONName fd = name
        \/ (fd_TextName fd = name
            /\ ~ In name (map fd_JSONName (md_Fields desc)))).
Proof.
  intros desc name options fd ok. unfold findField.
  destruct (ByJSONName (md_Fields desc) name) as [g|] eqn:Hj.
  - intros [= <- <-]. destruct (ByJSONName_Some _ _ _ Hj) as [Hin Hn].
    repeat split; [exact Hin | now left].
  - destruct (ByTextName (md_Fields desc) name) as [g|] eqn:Ht.
    + intros [= <- <-]. destruct (ByTextName_Some _ _ _ Ht) as [Hin Hn].
      apply ByJSONName_None in Hj. repeat split; [exact Hin | now right].
    + destruct (findExtraField _ name); discriminate.
Qed.

Lemma findField_sound_witness :
  In Samples.f_display (md_Fields Samples.Person)
  /\ fd_TextName Samples.f_display = "display_name".
Proof.
  destruct (findField_sound Samples.Person "display_name" Fixture.noOptions
              Samples.f_display true eq_refl) as (_ & Hin & [H|[H _]]).
  - discriminate H.
  - split; [exact Hin | exact H].
Defined.

(** X2: [findField] sets the flag exactly for a name that is the JSON name
    or the text name of a field or the name of an extra field, and returns a
    descriptor exactly for a name of a field: a field that is also listed as
    an extra field is decoded, not skipped. *)
Theorem findField_complete :
  forall (desc : MessageDescriptor) (name : string) (options : UnmarshalOptions),
    (snd (findField desc name options) = true <->
     In name (map fd_JSONName (md_Fields desc))
     \/ In name (map fd_TextName (md_Fields desc))
     \/ In name (map FieldName (ExtraFields (uo_MarshalOptions options))))
    /\ ((exists fd, fst (findField desc name options) = Some fd) <->
        In name (map fd_JSONName (md_Fields desc))
        \/ In name (map fd_TextName (md_Fields desc))).
Proof.
  intros desc name options. unfold findField.
  destruct (ByJSONName (md_Fields desc) name) as [g|] eqn:Hj.
  - assert (In name (map fd_JSONName (md_Fields desc))) as Hin.
    { destruct (ByJSONName_None (md_Fields desc) name) as [_ H].
      destruct (in_dec string_dec name (map fd_JSONName (md_Fields desc)));
        [assumption | rewrite H in Hj by assumption; discriminate]. }
    cbn. split; split; auto. intros _. now exists g.
  - apply ByJSONName_None in Hj.
    destruct (ByTextName (md_Fields desc) name) as [g|] eqn:Ht.
    + assert (In name (map fd_TextName (md_Fields desc))) as Hin.
      { destruct (ByTextName_None (md_Fields desc) name) as [_ H].
        destruct (in_dec string_dec name (map fd_TextName (md_Fields desc)));
          [assumption | rewrite H in Ht by assumption; discriminate]. }
      cbn. split; split; auto. intros _. now exists g.
    + apply ByTextName_None in Ht.
      destruct (findExtraField _ name) eqn:Hx; cbn.
      * apply findExtraField_In in Hx. split; split; try tauto.
        intros [fd H]. discriminate H.
      * assert (~ In name (map FieldName (ExtraFields (uo_MarshalOptions options))))
          as Hnx.
        { intros H. apply findExtraField_In in H. congruence. }
        split; split; try tauto; try discriminate.
        intros [fd H]. discriminate H.
Qed.

(** ** Integer and floating-point kinds *)

Lemma uint32_range i : 0 <= uint32 i < 2 ^ 32.
Proof. unfold uint32. apply Z.mod_pos_bound. reflexivity. Qed.

Lemma uint64_range i : 0 <= uint64 i < 2 ^ 64.
Proof. unfold uint64. apply Z.mod_pos_bound. reflexivity. Qed.

Lemma uint32_negative i : - 2 ^ 32 <= i < 0 -> uint32 i = i + 2 ^ 32.
Proof.
  intros H. unfold uint32.
  rewrite <- (Z.mod_add i 1 (2 ^ 32)) by discriminate.
  rewrite Z.mul_1_l. apply Z.mod_small. lia.
Qed.

Lemma uint64_negative i : - 2 ^ 64 <= i < 0 -> uint64 i = i + 2 ^ 64.
Proof.
  intros H. unfold uint64.
  rewrite <- (Z.mod_add i 1 (2 ^ 64)) by discriminate.
  rewrite Z.mul_1_l. apply Z.mod_small. lia.
Qed.

(** X3: a 32-bit unsigned field ([uint32], [fixed32]) decodes the coerced
    integer to its residue modulo 2^32, with no error: a value from 0 to
    2^32 - 1 is kept, a negative one has 2^32 added, so -1 becomes
    4294967295. *)
Theorem decodeFieldKind_uint32_wraps :
  forall (E : Env) (data : any) (mutable : Value) (f : FieldDescriptor)
         (options : UnmarshalOptions) (i : Z),
    fd_Kind f = Uint32Kind \/ fd_Kind f = Fixed32Kind ->
    decodeIntLike E data "int" = Ok i ->
    decodeFieldKind E data mutable f options = Ok (ValueOfUint32 (uint32 i))
    /\ 0 <= uint32 i < 2 ^ 32
    /\ uint32 i mod 2 ^ 32 = i mod 2 ^ 32
    /\ (0 <= i < 2 ^ 32 -> uint32 i = i)
    /\ (- 2 ^ 32 <= i < 0 -> uint32 i = i + 2 ^ 32).
Proof.
  intros E data mutable f options i Hkind Hint.
  split; [|split; [apply uint32_range|split; [|split]]].
  - unfold decodeFieldKind, decodeFieldKind_body.
    destruct Hkind as [H|H]; rewrite H, Hint; reflexivity.
  - unfold uint32. apply Z.mod_mod. discriminate.
  - intros H. unfold uint32. now apply Z.mod_small.
  - apply uint32_negative.
Qed.

Lemma decodeFieldKind_uint32_wraps_witness :
  decodeFieldKind Fixture.env (GInt64 (-1)) (ValueOfUint32 0) Samples.f_u32
    Fixture.noOptions = Ok (ValueOfUint32 4294967295).
Proof.
  destruct (decodeFieldKind_uint32_wraps Fixture.env (GInt64 (-1))
              (ValueOfUint32 0) Samples.f_u32 Fixture.noOptions (-1)
              (or_introl eq_refl) eq_refl) as [H _].
  exact H.
Defined.

(** X4: a 64-bit unsigned field ([uint64], [fixed64]) decodes the coerced
    [int64] to its residue modulo 2^64, with no error: a non-negative value
    is kept, a negative one has 2^64 added, so -1 becomes
    18446744073709551615. *)
Theorem decodeFieldKind_uint64_wraps :
  forall (E : Env) (data : any) (mutable : Value) (f : FieldDescriptor)
         (options : UnmarshalOptions) (i : Z),
    fd_Kind f = Uint64Kind \/ fd_Kind f = Fixed64Kind ->
    decodeIntLike E data "long" = Ok i ->
    decodeFieldKind E data mutable f options = Ok (ValueOfUint64 (uint64 i))
    /\ 0 <= uint64 i < 2 ^ 64
    /\ (0 <= i < 2 ^ 63 -> uint64 i = i)
    /\ (- 2 ^ 63 <= i < 0 -> uint64 i = i + 2 ^ 64).
Proof.
  intros E data mutable f options i Hkind Hint.
  split; [|split; [apply uint64_range|split]].
  - unfold decodeFieldKind, decodeFieldKind_body.
    destruct Hkind as [H|H]; rewrite H, Hint; reflexivity.
  - intros H. unfold uint64. apply Z.mod_small.
    change (2 ^ 64) with (2 * 2 ^ 63). lia.
  - intros H. apply uint64_negative.
    change (2 ^ 64) with (2 * 2 ^ 63). lia.
Qed.

Lemma decodeFieldKind_uint64_wraps_witness :
  decodeFieldKind Fixture.env (GInt64 (-1)) (ValueOfUint64 0) Samples.f_u64
    Fixture.noOptions = Ok (ValueOfUint64 18446744073709551615).
Proof.
  destruct (decodeFieldKind_uint64_wraps Fixture.env (GInt64 (-1))
              (ValueOfUint64 0) Samples.f_u64 Fixture.noOptions (-1)
              (or_introl eq_refl) eq_refl) as [H _].
  exact H.
Defined.

(** X5: a signed integer field keeps every value that fits: a 32-bit signed
    field decodes an integer from -2^31 to 2^31 - 1 to itself, and a 64-bit
    signed field decodes every coerced [int64] to itself. *)
Theorem decodeFieldKind_signed_in_range :
  forall (E : Env) (data : any) (mutable : Value) (f : FieldDescriptor)
         (options : UnmarshalOptions) (i : Z),
    (fd_Kind f = Int32Kind \/ fd_Kind f = Sfixed32Kind \/ fd_Kind f = Sint32Kind ->
     decodeIntLike E data "int" = Ok i ->
     - 2 ^ 31 <= i < 2 ^ 31 ->
     decodeFieldKind E data mutable f options = Ok (ValueOfInt32 i))
    /\ (fd_Kind f = Int64Kind \/ fd_Kind f = Sfixed64Kind \/ fd_Kind f = Sint64Kind ->
        decodeIntLike E data "long" = Ok i ->
        decodeFieldKind E data mutable f options = Ok (ValueOfInt64 i)).
Proof.
  intros E data mutable f options i. split.
  - intros Hkind Hint Hfit. unfold decodeFieldKind, decodeFieldKind_body.
    destruct Hkind as [H|[H|H]]; rewrite H, Hint, (int32_fits i Hfit);
      reflexivity.
  - intros Hkind Hint. unfold decodeFieldKind, decodeFieldKind_body.
    destruct Hkind as [H|[H|H]]; rewrite H, Hint; reflexivity.
Qed.

Lemma decodeFieldKind_signed_in_range_witness :
  decodeFieldKind Fixture.env (GInt32 (-5)) (ValueOfInt32 0) Fixture.f_count
    Fixture.noOptions = Ok (ValueOfInt32 (-5))
  /\ decodeFieldKind Fixture.env (GInt64 4294967296) (ValueOfInt64 0)
       Samples.f_big Fixture.noOptions = Ok (ValueOfInt64 4294967296).
Proof.
  split.
  - apply (proj1 (decodeFieldKind_signed_in_range Fixture.env (GInt32 (-5))
                    (ValueOfInt32 0) Fixture.f_count Fixture.noOptions (-5))
             (or_introl eq_refl) eq_refl).
    cbn. lia.
  - exact (proj2 (decodeFieldKind_signed_in_range Fixture.env (GInt64 4294967296)
                    (ValueOfInt64 0) Samples.f_big Fixture.noOptions 4294967296)
             (or_introl eq_refl) eq_refl).
Defined.

(** X6: a [double] field accepts a [float64] and nothing else, a [float]
    field a [float32] and nothing else; no other number is converted, so a
    [float64] given to a [float] field is an error. *)
Theorem decodeFieldKind_float_strict :
  forall (E : Env) (data : any) (mutable : Value) (f : FieldDescriptor)
         (options : UnmarshalOptions) (v : Value),
    (fd_Kind f = DoubleKind ->
     (decodeFieldKind E data mutable f options = Ok v <->
      exists dbl, data = GFloat64 dbl /\ v = ValueOfFloat64 dbl))
    /\ (fd_Kind f = FloatKind ->
        (decodeFieldKind E data mutable f options = Ok v <->
         exists flt, data = GFloat32 flt /\ v = ValueOfFloat32 flt)).
Proof.
  intros E data mutable f options v.
  unfold decodeFieldKind, decodeFieldKind_body.
  split; intros ->; split.
  - destruct data; try discriminate. intros [= <-]. now eexists.
  - intros (dbl & -> & ->). reflexivity.
  - destruct data; try discriminate. intros [= <-]. now eexists.
  - intros (flt & -> & ->). reflexivity.
Qed.

Lemma decodeFieldKind_float_strict_witness :
  decodeFieldKind Fixture.env (GFloat64 4611686018427387904) (ValueOfFloat64 0)
    Samples.f_ratio Fixture.noOptions
  = Ok (ValueOfFloat64 4611686018427387904)
  /\ decodeFieldKind Fixture.env (GFloat64 4611686018427387904) (ValueOfFloat32 0)
       Samples.f_weight Fixture.noOptions
     <> Ok (ValueOfFloat32 4611686018427387904).
Proof.
  split.
  - apply (proj1 (decodeFieldKind_float_strict Fixture.env
                    (GFloat64 4611686018427387904) (ValueOfFloat64 0)
                    Samples.f_ratio Fixture.noOptions
                    (ValueOfFloat64 4611686018427387904)) eq_refl).
    now eexists.
  - intros H.
    apply (proj2 (decodeFieldKind_float_strict Fixture.env
                    (GFloat64 4611686018427387904) (ValueOfFloat32 0)
                    Samples.f_weight Fixture.noOptions
                    (ValueOfFloat32 4611686018427387904)) eq_refl) in H.
    destruct H as (flt & H & _). discriminate H.
Defined.

Local Ltac wraps_iff :=
  unfold decodeFieldKind, decodeFieldKind_body, fieldError;
  match goal with
  | H : fd_Kind _ = _ |- _ => rewrite H
  end;
  repeat match goal with
         | |- context [match ?x with _ => _ end] => destruct x
         end;
  (split; [intros [= ? ?]; congruence | intros [= ?]; congruence])
  || (split; discriminate).

(** X7: a string, boolean, integer, bytes or enum field fails with the
    error "field <name>: <cause>" wrapping a cause exactly when the
    coercion helper of its kind, called with the role of its kind, fails
    with that cause: [decodeStringLike] with "string", or with the enum's
    full name, [decodeBoolLike] with "boolean", [decodeIntLike] with "int"
    for the 32-bit and "long" for the 64-bit kinds, [decodeBytesLike] with
    "bytes".  These fields fail with no other error, and unwrapping the
    error gives the helper's error back. *)
Theorem decodeFieldKind_wraps_cause :
  forall (E : Env) (data : any) (mutable : Value) (f : FieldDescriptor)
         (options : UnmarshalOptions) (cause : error),
    (fd_Kind f = StringKind ->
     (decodeFieldKind E data mutable f options = Err (fieldError f cause) <->
      decodeStringLike E data "string" = Err cause))
    /\ (fd_Kind f = EnumKind ->
        (decodeFieldKind E data mutable f options = Err (fieldError f cause) <->
         decodeStringLike E data (en_FullName (fd_Enum f)) = Err cause))
    /\ (fd_Kind f = BoolKind ->
        (decodeFieldKind E data mutable f options = Err (fieldError f cause) <->
         decodeBoolLike E data "boolean" = Err cause))
    /\ (fd_Kind f = Int32Kind \/ fd_Kind f = Sfixed32Kind \/ fd_Kind f = Sint32Kind
        \/ fd_Kind f = Uint32Kind \/ fd_Kind f = Fixed32Kind ->
        (decodeFieldKind E data mutable f options = Err (fieldError f cause) <->
         decodeIntLike E data "int" = Err cause))
    /\ (fd_Kind f = Int64Kind \/ fd_Kind f = Sfixed64Kind \/ fd_Kind f = Sint64Kind
        \/ fd_Kind f = Uint64Kind \/ fd_Kind f = Fixed64Kind ->
        (decodeFieldKind E data mutable f options = Err (fieldError f cause) <->
         decodeIntLike E data "long" = Err cause))
    /\ (fd_Kind f = BytesKind ->
        (decodeFieldKind E data mutable f options = Err (fieldError f cause) <->
         decodeBytesLike E data "bytes" = Err cause))
    /\ (scalarKind (fd_Kind f) = true ->
        fd_Kind f <> DoubleKind ->
        fd_Kind f <> FloatKind ->
        forall err,
          decodeFieldKind E data mutable f options = Err err ->
          exists cause', err = fieldError f cause')
    /\ Unwrap (fieldError f cause) = Some cause
    /\ Error (fieldError f cause) = "field " ++ fd_Name f ++ ": " ++ Error cause.
Proof.
  intros E data mutable f options cause.
  split; [intros Hk; wraps_iff|].
  split; [intros Hk; wraps_iff|].
  split; [intros Hk; wraps_iff|].
  split; [intros [Hk|[Hk|[Hk|[Hk|Hk]]]]; wraps_iff|].
  split; [intros [Hk|[Hk|[Hk|[Hk|Hk]]]]; wraps_iff|].
  split; [intros Hk; wraps_iff|].
  split; [|split; reflexivity].
  intros Hk Hd Hf err.
  unfold decodeFieldKind, decodeFieldKind_body, fieldError.
  destruct (fd_Kind f); try discriminate Hk; try congruence;
    repeat match goal with
           | |- context [match ?x with _ => _ end] => destruct x
           end;
    try discriminate; intros [= <-]; eexists; reflexivity.
Qed.

Lemma decodeFieldKind_wraps_cause_witness :
  decodeFieldKind Fixture.env (GString "x") (ValueOfInt32 0) Fixture.f_count
    Fixture.noOptions
  = Err (wrapError "field count: expected int, got string"
           (fmtError "expected int, got string"))
  /\ (decodeFieldKind Fixture.env (GInt32 1) (ValueOfEnum 0) Fixture.f_color
        Fixture.noOptions
      = Err (wrapError "field color: expected pkg.Color, got int32"
               (fmtError "expected pkg.Color, got int32"))).
Proof.
  split.
  - exact (proj2 (proj1 (proj2 (proj2 (proj2
             (decodeFieldKind_wraps_cause Fixture.env (GString "x")
                (ValueOfInt32 0) Fixture.f_count Fixture.noOptions
                (fmtError "expected int, got string")))))
             (or_introl eq_refl)) eq_refl).
  - exact (proj2 (proj1 (proj2
             (decodeFieldKind_wraps_cause Fixture.env (GInt32 1)
                (ValueOfEnum 0) Fixture.f_color Fixture.noOptions
                (fmtError "expected pkg.Color, got int32")))
             eq_refl) eq_refl).
Defined.

(** ** What [decodeField] writes *)

(** The outcome of [decodeField] is a matter of the value, the field and the
    options: it stores one value in the slot of the field, or stores
    nothing. *)
Lemma decodeField_factor E data f options :
  exists (w : option Value) (r : option error),
    (r <> None -> w = None)
    /\ (data = GNil -> w = None /\ r = None)
    /\ (data <> GNil -> r = None -> w <> None)
    /\ forall val,
         decodeField E data val f options
         = (match w with Some v => MessageSet val f v | None => val end, r).
Proof.
  destruct (any_nil_dec data) as [->|Hdata].
  - exists None, None. repeat split; congruence.
  - assert (forall val,
               decodeField E data val f options
               = if fd_IsMap f then
                   match NewField E f with
                   | ValueOfMap mp0 =>
                       match decodeMap E data f mp0 options with
                       | (_, Some err) => (val, Some err)
                       | (mp, None) => (MessageSet val f (ValueOfMap mp), None)
                       end
                   | _ => (val, Some (goPanic "Value.Map: value is not a map"))
                   end
                 else if fd_IsList f then
                   match decodeListLike data "array" with
                   | Err err => (val, Some err)
                   | Ok listData =>
                       match decodeElements E (decodeMessage E) f options listData [] with
                       | Err err => (val, Some err)
                       | Ok lst => (MessageSet val f (ValueOfList lst), None)
                       end
                   end
                 else
                   match decodeFieldKind E data (NewField E f) f options with
                   | Err err => (val, Some err)
                   | Ok fieldValue => (MessageSet val f fieldValue, None)
                   end) as Heq.
    { intros val. rewrite decodeField_unfold. destruct data; congruence. }
    revert Heq.
    repeat match goal with
           | |- context [if ?x then _ else _] => destruct x
           | |- context [match ?x with _ => _ end] => destruct x
           end;
      intros Heq;
      first
        [ exists None; eexists; (split; [|split; [|split; [|exact Heq]]]);
          congruence
        | eexists (Some _), None; (split; [|split; [|split; [|exact Heq]]]);
          congruence ].
Qed.

(** X8: [decodeField] changes the destination by at most one call of
    [Message.Set], on its own field and only when it succeeds; whether it
    fails, with which error, and which value it passes to [Set] are the same
    for every destination.  A null value makes no call, a non-null value
    that decodes makes one. *)
Theorem decodeField_one_write :
  forall (E : Env) (data : any) (f : FieldDescriptor) (options : UnmarshalOptions),
  exists (w : option Value) (r : option error),
    (r <> None -> w = None)
    /\ (data = GNil -> w = None /\ r = None)
    /\ (data <> GNil -> r = None -> w <> None)
    /\ forall val,
         decodeField E data val f options
         = (match w with Some v => MessageSet val f v | None => val end, r).
Proof. intros E data f options. apply decodeField_factor. Qed.

Lemma decodeField_one_write_witness :
  exists (w : option Value) (r : option error),
    forall val,
      decodeField Fixture.env (GSlice [GInt32 1; GString "x"]) val
        Fixture.f_values Fixture.noOptions
      = (match w with
         | Some v => MessageSet val Fixture.f_values v
         | None => val
         end, r).
Proof.
  destruct (decodeField_one_write Fixture.env (GSlice [GInt32 1; GString "x"])
              Fixture.f_values Fixture.noOptions) as (w & r & _ & _ & _ & H).
  exists w, r. exact H.
Defined.

(** X10: a single message or group field given a non-null value is decoded
    by [decodeMessage] into a new, empty message of the field's type; on
    success that message replaces the content of the slot, on failure the
    error comes back unchanged and the destination is as before. *)
Theorem decodeField_message_replaces :
  forall (E : Env) (data : any) (val : Message) (f : FieldDescriptor)
         (options : UnmarshalOptions),
    fd_Kind f = MessageKind \/ fd_Kind f = GroupKind ->
    fd_IsMap f = false ->
    fd_IsList f = false ->
    data <> GNil ->
    decodeField E data val f options
    = match decodeMessage E data
              (Build_Message (MessageOf E (fd_MessageName f)) []) options with
      | (_, Some err) => (val, Some err)
      | (nested, None) => (MessageSet val f (ValueOfMessage nested), None)
      end.
Proof.
  intros E data val f options Hkind Hmap Hlist Hdata.
  rewrite decodeField_unfold, Hmap, Hlist.
  unfold NewField. rewrite Hmap, Hlist, (newValue_message E f Hkind).
  unfold decodeFieldKind, decodeFieldKind_body.
  destruct (decodeMessage E data
              (Build_Message (MessageOf E (fd_MessageName f)) []) options)
    as [nested [err|]];
    destruct Hkind as [Hk|Hk]; rewrite Hk; destruct data; congruence.
Qed.

Lemma decodeField_message_replaces_witness :
  decodeField Fixture.env (GMap [("name", GString "b")])
    (MessageSet (Fixture.empty Fixture.Msg) Fixture.f_child
       (ValueOfMessage
          (MessageSet (Fixture.empty Fixture.Msg) Fixture.f_count (ValueOfInt32 1))))
    Fixture.f_child Fixture.noOptions
  = (MessageSet
       (MessageSet (Fixture.empty Fixture.Msg) Fixture.f_child
          (ValueOfMessage
             (MessageSet (Fixture.empty Fixture.Msg) Fixture.f_count (ValueOfInt32 1))))
       Fixture.f_child
       (ValueOfMessage
          (MessageSet (Fixture.empty Fixture.Msg) Fixture.f_name (ValueOfString "b"))),
     None).
Proof.
  exact (decodeField_message_replaces Fixture.env (GMap [("name", GString "b")])
           (MessageSet (Fixture.empty Fixture.Msg) Fixture.f_child
              (ValueOfMessage
                 (MessageSet (Fixture.empty Fixture.Msg) Fixture.f_count
                    (ValueOfInt32 1))))
           Fixture.f_child Fixture.noOptions
           (or_introl eq_refl) eq_refl eq_refl ltac:(discriminate)).
Defined.

(** ** The loop over the entries, entry by entry *)

Section Loop.
Variable E : Env.
Variable options : UnmarshalOptions.
Variable desc : MessageDescriptor.

Local Abbreviation loop := (decodeEntries E (decodeMessage E) desc options).

Lemma loop_cons fieldName fieldValue rest msg :
  loop ((fieldName, fieldValue) :: rest) msg =
  match findField desc fieldName options with
  | (_, false) => (msg, Some (fmtError ("unexpected field " ++ fieldName)))
  | (None, true) => loop rest msg
  | (Some fd, true) =>
      match decodeField E fieldValue msg fd options with
      | (msg', Some err) => (msg', Some err)
      | (msg', None) => loop rest msg'
      end
  end.
Proof. reflexivity. Qed.

Lemma loop_descriptor d : forall msg,
  Descriptor (fst (loop d msg)) = Descriptor msg.
Proof.
  induction d as [|[fieldName fieldValue] rest IH]; intros msg; [reflexivity|].
  rewrite loop_cons.
  destruct (findField desc fieldName options) as [[fd|] [|]]; try reflexivity.
  - destruct (decodeField_factor E fieldValue fd options) as (w & r & _ & _ & _ & Heq).
    rewrite Heq. destruct r as [err|]; cbn [fst].
    + now destruct w.
    + rewrite IH. now destruct w.
  - apply IH.
Qed.

(** The loop succeeds exactly when every entry resolves and every resolved
    entry decodes, on whichever destination. *)
Lemma loop_success d : forall msg,
  snd (loop d msg) = None <->
  Forall (fun entry : string * any =>
            snd (findField desc (fst entry) options) = true
            /\ forall fd val,
                 fst (findField desc (fst entry) options) = Some fd ->
                 snd (decodeField E (snd entry) val fd options) = None) d.
Proof.
  induction d as [|[fieldName fieldValue] rest IH]; intros msg.
  - split; [constructor | reflexivity].
  - rewrite loop_cons, Forall_cons_iff. cbn [fst snd].
    destruct (findField desc fieldName options) as [[fd|] [|]] eqn:Hf; cbn [fst snd].
    + destruct (decodeField_factor E fieldValue fd options)
        as (w & r & _ & _ & _ & Heq).
      rewrite Heq. destruct r as [err|]; cbn [snd].
      * split; [discriminate|]. intros [[_ H] _].
        specialize (H fd msg eq_refl). rewrite Heq in H. discriminate H.
      * rewrite IH. split.
        -- intros H. split; [|exact H]. split; [reflexivity|].
           intros fd' val [= <-]. now rewrite Heq.
        -- now intros [_ H].
    + split; [discriminate | intros [[H _] _]; discriminate H].
    + rewrite IH. split.
      * intros H. split; [|exact H]. split; [reflexivity | discriminate].
      * now intros [_ H].
    + split; [discriminate | intros [[H _] _]; discriminate H].
Qed.

(** A failing loop fails on one of its entries: an unknown name, or a field
    whose decoding fails. *)
Lemma loop_error d : forall msg m err,
  loop d msg = (m, Some err) ->
  exists fieldName fieldValue,
    In (fieldName, fieldValue) d
    /\ ((snd (findField desc fieldName options) = false
         /\ err = fmtError ("unexpected field " ++ fieldName))
        \/ exists fd val,
             findField desc fieldName options = (Some fd, true)
             /\ snd (decodeField E fieldValue val fd options) = Some err).
Proof.
  induction d as [|[fieldName fieldValue] rest IH]; intros msg m err; [discriminate|].
  rewrite loop_cons.
  destruct (findField desc fieldName options) as [[fd|] [|]] eqn:Hf.
  - destruct (decodeField E fieldValue msg fd options) as [msg' [e|]] eqn:Hd.
    + intros [= <- <-]. exists fieldName, fieldValue. split; [now left|].
      right. exists fd, msg. now rewrite Hd.
    + intros H. destruct (IH _ _ _ H) as (k & v & Hin & Hcase).
      exists k, v. split; [now right | exact Hcase].
  - intros [= <- <-]. exists fieldName, fieldValue. split; [now left|].
    left. rewrite Hf. now split.
  - intros H. destruct (IH _ _ _ H) as (k & v & Hin & Hcase).
    exists k, v. split; [now right | exact Hcase].
  - intros [= <- <-]. exists fieldName, fieldValue. split; [now left|].
    left. rewrite Hf. now split.
Qed.
End Loop.

(** Structural induction on a value, through the elements of a slice and the
    values of a map. *)
Lemma any_tree_ind (P : any -> Prop) :
  P GNil ->
  (forall b, P (GBool b)) ->
  (forall i, P (GInt32 i)) ->
  (forall i, P (GInt64 i)) ->
  (forall bits, P (GFloat32 bits)) ->
  (forall bits, P (GFloat64 bits)) ->
  (forall s, P (GString s)) ->
  (forall bs, P (GBytes bs)) ->
  (forall l, Forall P l -> P (GSlice l)) ->
  (forall d, Forall (fun entry => P (snd entry)) d -> P (GMap d)) ->
  forall data, P data.
Proof.
  intros HNil HBool HInt32 HInt64 HFloat32 HFloat64 HString HBytes HSlice HMap.
  fix IH 1.
  intros [ |b|i|i|bits|bits|s|bs|l|d];
    [ apply HNil | apply HBool | apply HInt32 | apply HInt64 | apply HFloat32
    | apply HFloat64 | apply HString | apply HBytes | | ].
  - apply HSlice. revert l. fix IHl 1. intros [|x l]; constructor.
    + apply IH.
    + apply IHl.
  - apply HMap. revert d. fix IHd 1. intros [|[key value] d]; constructor.
    + apply IH.
    + apply IHd.
Qed.

(** ** [decodeMessage] on a map of fields *)







(** X13: on a map that is iterated field by field, [decodeMessage] succeeds
    exactly when every key resolves, to a field or to an extra field, and
    the value of every key that resolves to a field decodes for that field;
    neither the visiting order nor the content of the destination
    matters. *)
Theorem decodeMessage_succeeds_iff :
  forall (E : Env) (d : list (string * any)) (msg : Message)
         (options : UnmarshalOptions),
    isWKT E (md_FullName (Descriptor msg)) = false ->
    ~ isUnionOf (md_FullName (Descriptor msg)) d ->
    (snd (decodeMessage E (GMap d) msg options) = None <->
     forall fieldName fieldValue,
       In (fieldName, fieldValue) d ->
       snd (findField (Descriptor msg) fieldName options) = true
       /\ forall fd val,
            fst (findField (Descriptor msg) fieldName options) = Some fd ->
            snd (decodeField E fieldValue val fd options) = None).
Proof.
  intros E d msg options Hwkt Hunion.
  rewrite decodeMessage_range by assumption. unfold rangeEntries.
  rewrite loop_success, Forall_forall. split.
  - intros H fieldName fieldValue Hin. exact (H (fieldName, fieldValue) Hin).
  - intros H [fieldName fieldValue] Hin. exact (H fieldName fieldValue Hin).
Qed.

Lemma decodeMessage_succeeds_iff_witness :
  snd (decodeMessage Fixture.env
         (GMap [("name", GString "a"); ("legacy", GInt64 1)])
         (Fixture.empty Fixture.Msg) (Fixture.withExtra "legacy"))
  = None.
Proof.
  refine (proj2 (decodeMessage_succeeds_iff Fixture.env
                   [("name", GString "a"); ("legacy", GInt64 1)]
                   (Fixture.empty Fixture.Msg) (Fixture.withExtra "legacy")
                   eq_refl _) _).
  - intros [msgData H]. discriminate H.
  - intros fieldName fieldValue [[= <- <-]|[[= <- <-]|[]]].
    + split; [reflexivity|]. intros fd val [= <-]. reflexivity.
    + split; [reflexivity|]. intros fd val H. discriminate H.
Defined.

(** X15: on a map that is iterated field by field, every error of
    [decodeMessage] is the error of one entry of the map: the unknown-field
    error of a key that resolves to nothing, or the error with which the
    value of a key fails to decode for the field it resolves to. *)
Theorem decodeMessage_error_origin :
  forall (E : Env) (d : list (string * any)) (msg m : Message)
         (options : UnmarshalOptions) (err : error),
    isWKT E (md_FullName (Descriptor msg)) = false ->
    ~ isUnionOf (md_FullName (Descriptor msg)) d ->
    decodeMessage E (GMap d) msg options = (m, Some err) ->
    exists fieldName fieldValue,
      In (fieldName, fieldValue) d
      /\ ((snd (findField (Descriptor msg) fieldName options) = false
           /\ err = fmtError ("unexpected field " ++ fieldName))
          \/ exists fd val,
               findField (Descriptor msg) fieldName options = (Some fd, true)
               /\ snd (decodeField E fieldValue val fd options) = Some err).
Proof.
  intros E d msg m options err Hwkt Hunion Hdec.
  rewrite decodeMessage_range in Hdec by assumption. unfold rangeEntries in Hdec.
  exact (loop_error E options (Descriptor msg) d msg m err Hdec).
Qed.

Lemma decodeMessage_error_origin_witness :
  exists fieldName fieldValue,
    In (fieldName, fieldValue) [("name", GString "a"); ("bogus", GInt64 1)]
    /\ ((snd (findField Fixture.Msg fieldName Fixture.noOptions) = false
         /\ fmtError "unexpected field bogus"
            = fmtError ("unexpected field " ++ fieldName))
        \/ exists fd val,
             findField Fixture.Msg fieldName Fixture.noOptions = (Some fd, true)
             /\ snd (decodeField Fixture.env fieldValue val fd Fixture.noOptions)
                = Some (fmtError "unexpected field bogus")).
Proof.
  exact (decodeMessage_error_origin Fixture.env
           [("name", GString "a"); ("bogus", GInt64 1)]
           (Fixture.empty Fixture.Msg)
           (MessageSet (Fixture.empty Fixture.Msg) Fixture.f_name (ValueOfString "a"))
           Fixture.noOptions (fmtError "unexpected field bogus") eq_refl
           ltac:(intros [msgData H]; discriminate H) eq_refl).
Defined.

Lemma decodeDuration_descriptor d : forall msg,
  Descriptor (fst (Fixture.decodeDuration d msg)) = Descriptor msg.
Proof.
  induction d as [|[key value] rest IH]; intros msg; [reflexivity|].
  cbn [Fixture.decodeDuration].
  destruct value; try reflexivity.
  destruct (String.eqb key "seconds"); [now rewrite IH|].
  destruct (String.eqb key "nanos"); [now rewrite IH | reflexivity].
Qed.

Lemma Fixture_decodeWKT_descriptor d msg :
  Descriptor (fst (decodeWKT Fixture.env d msg)) = Descriptor msg.
Proof.
  cbn [decodeWKT Fixture.env]. unfold Fixture.decodeWKT.
  destruct (String.eqb _ _); [apply decodeDuration_descriptor | reflexivity].
Qed.

(** X16: [decodeMessage] never changes the type of its destination: if the
    decoder of the well-known types keeps the descriptor of the message it
    is given, the message that [decodeMessage] leaves has the descriptor it
    started with, on every input, union wrappers included, on success and
    on failure. *)
Theorem decodeMessage_keeps_descriptor :
  forall (E : Env),
    (forall d m, Descriptor (fst (decodeWKT E d m)) = Descriptor m) ->
    forall (data : any) (msg : Message) (options : UnmarshalOptions),
      Descriptor (fst (decodeMessage E data msg options)) = Descriptor msg.
Proof.
  intros E Hwkt data.
  induction data as [ | | | | | | | | |d IH] using any_tree_ind;
    intros msg options; try reflexivity.
  rewrite decodeMessage_unfold.
  destruct (isWKT E (md_FullName (Descriptor msg))); [apply Hwkt|].
  assert (Descriptor (fst (rangeEntries E d msg options)) = Descriptor msg)
    as Hrange by apply loop_descriptor.
  destruct d as [|[key value] [|entry rest]];
    cbn [mapIndex List.length Nat.eqb]; try exact Hrange.
  - destruct (String.eqb key (md_FullName (Descriptor msg))); [|exact Hrange].
    inversion IH as [|? ? Hvalue _]; subst. apply Hvalue.
  - destruct (String.eqb key (md_FullName (Descriptor msg))); [exact Hrange|].
    destruct entry as [key' value'].
    destruct (String.eqb key' (md_FullName (Descriptor msg))); [exact Hrange|].
    destruct (mapIndex rest (md_FullName (Descriptor msg))); exact Hrange.
Qed.

Lemma decodeMessage_keeps_descriptor_witness :
  Descriptor
    (fst (decodeMessage Fixture.env
            (GMap [("pkg.Msg", GMap [("name", GString "a"); ("bogus", GNil)])])
            (Fixture.empty Fixture.Msg) Fixture.noOptions))
  = Fixture.Msg.
Proof.
  exact (decodeMessage_keeps_descriptor Fixture.env Fixture_decodeWKT_descriptor
           (GMap [("pkg.Msg", GMap [("name", GString "a"); ("bogus", GNil)])])
           (Fixture.empty Fixture.Msg) Fixture.noOptions).
Defined.

(** X17: a value that is neither null nor a map is rejected before anything
    else is looked at, for every target, the well-known types included: the
    error names the Go type of the value and the destination is as
    before. *)
Theorem decodeMessage_rejects_non_map :
  forall (E : Env) (data : any) (msg : Message) (options : UnmarshalOptions),
    data <> GNil ->
    (forall d, data <> GMap d) ->
    decodeMessage E data msg options
    = (msg, Some (fmtError ("expected message encoded as map[string]interface{}, got "
                            ++ typeName data)))
    /\ typeName data <> "<nil>"
    /\ typeName data <> "map[string]interface {}".
Proof.
  intros E data msg options Hnil Hmap.
  destruct data; try congruence; try (now elim (Hmap d));
    (split; [reflexivity | split; discriminate]).
Qed.

Lemma decodeMessage_rejects_non_map_witness :
  decodeMessage Fixture.env (GSlice [GMap [("seconds", GInt64 1)]])
    (Fixture.empty Fixture.Duration) Fixture.noOptions
  = (Fixture.empty Fixture.Duration,
     Some (fmtError
             "expected message encoded as map[string]interface{}, got []interface {}")).
Proof.
  exact (proj1 (decodeMessage_rejects_non_map Fixture.env
                  (GSlice [GMap [("seconds", GInt64 1)]])
                  (Fixture.empty Fixture.Duration) Fixture.noOptions
                  ltac:(discriminate) ltac:(discriminate))).
Defined.

Lemma loop_null_entries E options desc d : forall msg,
  (forall fieldName fieldValue,
      In (fieldName, fieldValue) d ->
      snd (findField desc fieldName options) = true
      /\ (forall fd, fst (findField desc fieldName options) = Some fd ->
                     fieldValue = GNil)) ->
  decodeEntries E (decodeMessage E) desc options d msg = (msg, None).
Proof.
  induction d as [|[fieldName fieldValue] rest IH]; intros msg Hall; [reflexivity|].
  rewrite loop_cons.
  destruct (Hall fieldName fieldValue (or_introl eq_refl)) as [Hflag Hnull].
  destruct (findField desc fieldName options) as [[fd|] [|]];
    cbn [fst snd] in *; try discriminate.
  - rewrite (Hnull fd eq_refl). cbn.
    apply IH. intros k v Hin. apply Hall. now right.
  - apply IH. intros k v Hin. apply Hall. now right.
Qed.

(** X18: a map that carries nothing to decode is a no-op: when the target is
    not a well-known type, the map is not a union wrapper of it, and every
    key is the name of an extra field or the name of a field with a null
    value, [decodeMessage] succeeds and leaves the destination as it was;
    the empty map is such a map. *)
Theorem decodeMessage_null_entries_noop :
  forall (E : Env) (d : list (string * any)) (msg : Message)
         (options : UnmarshalOptions),
    isWKT E (md_FullName (Descriptor msg)) = false ->
    ~ isUnionOf (md_FullName (Descriptor msg)) d ->
    (forall fieldName fieldValue,
        In (fieldName, fieldValue) d ->
        snd (findField (Descriptor msg) fieldName options) = true
        /\ (forall fd,
               fst (findField (Descriptor msg) fieldName options) = Some fd ->
               fieldValue = GNil)) ->
    decodeMessage E (GMap d) msg options = (msg, None).
Proof.
  intros E d msg options Hwkt Hunion Hall.
  rewrite decodeMessage_range by assumption.
  now apply loop_null_entries.
Qed.

Lemma decodeMessage_null_entries_noop_witness :
  decodeMessage Fixture.env (GMap []) (Fixture.empty Fixture.Msg) Fixture.noOptions
  = (Fixture.empty Fixture.Msg, None)
  /\ decodeMessage Fixture.env
       (GMap [("name", GNil); ("legacy", GString "x"); ("values", GNil)])
       (MessageSet (Fixture.empty Fixture.Msg) Fixture.f_name (ValueOfString "a"))
       (Fixture.withExtra "legacy")
     = (MessageSet (Fixture.empty Fixture.Msg) Fixture.f_name (ValueOfString "a"),
        None).
Proof.
  split.
  - apply (decodeMessage_null_entries_noop Fixture.env []
             (Fixture.empty Fixture.Msg) Fixture.noOptions eq_refl).
    + intros [msgData H]. discriminate H.
    + intros fieldName fieldValue [].
  - apply (decodeMessage_null_entries_noop Fixture.env
             [("name", GNil); ("legacy", GString "x"); ("values", GNil)]
             (MessageSet (Fixture.empty Fixture.Msg) Fixture.f_name
                (ValueOfString "a"))
             (Fixture.withExtra "legacy") eq_refl).
    + intros [msgData H]. discriminate H.
    + intros fieldName fieldValue [[= <- <-]|[[= <- <-]|[[= <- <-]|[]]]];
        (split; [reflexivity|]); intros fd H; (reflexivity || discriminate H).
Defined.
